(** * Triple-SMA indicator: the signal calculators and the reachability probe

    A shallow embedding of

    - [calculate_triple_sma_enhanced]  (improved-colab-notebook.py, l. 480-555),
    - [calculate_triple_sma_optimized] (triple-sma-colab-notebook.py, l. 143-192;
      triple_sma_quantstats_colab.py has the same body),
    - the [functools.lru_cache(maxsize=32)] wrapper both carry,
    - [ConnectionManager.test_network_connection]
      (improved-colab-notebook.py, l. 134-183),
    - the rest of [ConnectionManager] ([check_ngrok_status],
      [get_connection_stats]), the [EnhancedIBapi] wrapper, the network
      tests of [comprehensive_connection_test], [analyze_current_signal]
      and the trade counts of the two notebooks,

    followed by the properties the specification states about them, and
    by further properties of the code.

    Numbers.  The price columns are float64 columns.  A finite float is
    represented by the rational it denotes; [NaN] and the two infinities are
    separate constructors, with the IEEE rules for comparison and for the
    three arithmetic operations the calculators apply to derived columns.
    Rounding, overflow and the sign of zero are outside the model.  Input
    prices are finite.

    Dates.  The [date] column is represented after conversion, as a
    timestamp in seconds; the text-to-datetime conversion of l. 505-506 is
    outside the model.

    Periods.  The three window sizes are natural numbers; pandas rejects a
    negative window.

    Columns that no stated property mentions ([volatility], [momentum],
    [drawdown], l. 541-546 of the enhanced calculator) are left out; none of
    them can raise. *)

From Stdlib Require Import String Ascii DecimalString.
From Stdlib Require Import List ZArith QArith Bool Lia.
From Stdlib Require Import Permutation Sorted.
Import ListNotations.

Local Open Scope Z_scope.
Local Open Scope Q_scope.
Local Open Scope nat_scope.

(* ------------------------------------------------------------------ *)
(** ** Float values *)

Inductive fval : Type :=
| NaN
| Inf (negative : bool)
| Fin (q : Q).

Definition Qltb (x y : Q) : bool := negb (Qle_bool y x).
Definition Qeqb (x y : Q) : bool := Qeq_bool x y.

(** [a < b] on floats: false as soon as one side is NaN. *)
Definition fltb (a b : fval) : bool :=
  match a, b with
  | Fin x, Fin y => Qltb x y
  | Inf true, Fin _ => true
  | Inf true, Inf false => true
  | Fin _, Inf false => true
  | _, _ => false
  end.

Definition fgtb (a b : fval) : bool := fltb b a.

Definition fmul (a b : fval) : fval :=
  match a, b with
  | NaN, _ | _, NaN => NaN
  | Fin x, Fin y => Fin (x * y)
  | Inf s, Inf s' => Inf (xorb s s')
  | Inf s, Fin y | Fin y, Inf s =>
      if Qeqb y 0 then NaN else Inf (xorb s (Qltb y 0))
  end.

Definition fdiv (a b : fval) : fval :=
  match a, b with
  | NaN, _ | _, NaN => NaN
  | Fin x, Fin y =>
      if Qeqb y 0
      then (if Qeqb x 0 then NaN else Inf (Qltb x 0))
      else Fin (x / y)
  | Fin _, Inf _ => Fin 0
  | Inf s, Fin y => Inf (xorb s (Qltb y 0))
  | Inf _, Inf _ => NaN
  end.

Definition fsub (a b : fval) : fval :=
  match a, b with
  | NaN, _ | _, NaN => NaN
  | Fin x, Fin y => Fin (x - y)
  | Inf s, Fin _ => Inf s
  | Fin _, Inf s => Inf (negb s)
  | Inf s, Inf s' => if Bool.eqb s s' then NaN else Inf s
  end.

Definition notna (a : fval) : bool :=
  match a with NaN => false | _ => true end.

(** [Series.fillna(v)] on one cell. *)
Definition fillna (v : Q) (a : fval) : fval :=
  match a with NaN => Fin v | _ => a end.

Definition of_int (z : Z) : fval := Fin (inject_Z z).

(* ------------------------------------------------------------------ *)
(** ** Column operations *)

(** Element-wise binary operation on two columns of the same frame. *)
Fixpoint map2 {A B C : Type} (f : A -> B -> C) (xs : list A) (ys : list B)
  : list C :=
  match xs, ys with
  | x :: xs', y :: ys' => f x y :: map2 f xs' ys'
  | _, _ => []
  end.

(** [Series.shift(1)]: every value moves one row down, the first row
    becomes NaN, the last value is dropped. *)
Definition shift1 (xs : list fval) : list fval :=
  match xs with
  | [] => []
  | _ :: _ => NaN :: removelast xs
  end.

(** [Series.diff()] on the integer [signal] column. *)
Definition diff (xs : list Z) : list fval :=
  let f := map of_int xs in
  map2 fsub f (shift1 f).

(** [Series.pct_change()] on a column without NaN: [x / x.shift(1) - 1]. *)
Definition pct_change (xs : list Q) : list fval :=
  let f := map Fin xs in
  map2 (fun c p => fsub (fdiv c p) (Fin 1)) f (shift1 f).

(** [df.loc[mask, col] = v]. *)
Definition loc_set {A : Type} (mask : list bool) (v : A) (col : list A)
  : list A :=
  map2 (fun (m : bool) x => if m then v else x) mask col.

Definition Qsum (xs : list Q) : Q := fold_right Qplus 0%Q xs.

Definition mean (win : list Q) : Q :=
  (Qsum win / inject_Z (Z.of_nat (length win)))%Q.

(** The rows a fixed window of size [w] ending at row [i] covers:
    rows [i - w + 1 .. i], cut at the start of the column. *)
Definition window_at (w : nat) (xs : list Q) (i : nat) : list Q :=
  skipn (S i - w) (firstn (S i) xs).

(** [Series.rolling(window=w, min_periods=m).mean()].  Without
    [min_periods] pandas takes the window size for it.  A row has a value
    when the window holds at least [min_periods] observations, and at least
    one. *)
Definition rolling_mean (w : nat) (min_periods : option nat) (xs : list Q)
  : list fval :=
  let minp := match min_periods with Some m => m | None => w end in
  map (fun i =>
         let win := window_at w xs i in
         if (minp <=? length win) && (0 <? length win)
         then Fin (mean win) else NaN)
      (seq 0 (length xs)).

(* ------------------------------------------------------------------ *)
(** ** Bars, tables, exceptions *)

(** One element of [data_tuple]: (date, open, high, low, close, volume). *)
Record Bar : Type := mkBar {
  date : Z;
  open : Q;
  high : Q;
  low : Q;
  close : Q;
  volume : Z
}.

(** The frame a calculator returns: the bars it kept, in row order (their
    [date] is the index), and the derived columns. *)
Record SignalTable : Type := mkTable {
  bars : list Bar;
  sma20 : list fval;
  sma50 : list fval;
  sma200 : list fval;
  signal : list Z;
  position : list fval;
  returns : list fval;
  strategy_returns : list fval
}.

Definition nrows (t : SignalTable) : nat := length (bars t).

(** What a call can raise.  [InsufficientData have need] is
    [ValueError("Insufficient data: {have} bars, need at least {need}")]. *)
Inductive exn : Type :=
| InsufficientData (have need : nat)
| IndexError
| ZeroDivisionError.

Inductive result (A : Type) : Type :=
| Ok (a : A)
| Err (e : exn).
Arguments Ok {A} a.
Arguments Err {A} e.

Definition bind {A B : Type} (r : result A) (k : A -> result B) : result B :=
  match r with
  | Ok a => k a
  | Err e => Err e
  end.

Notation "x <- r ;; k" := (bind r (fun x => k))
  (at level 61, r at next level, right associativity).

Definition raise_if (c : bool) (e : exn) : result unit :=
  if c then Err e else Ok tt.

(** [xs.iloc[0]] / [xs[0]]: IndexError on an empty sequence. *)
Definition first {A : Type} (xs : list A) : result A :=
  match xs with
  | [] => Err IndexError
  | x :: _ => Ok x
  end.

(* ------------------------------------------------------------------ *)
(** ** The signal columns (shared by the calculators) *)

Definition mask_gt (xs ys : list fval) : list bool := map2 fgtb xs ys.
Definition mask_lt (xs ys : list fval) : list bool := map2 fltb xs ys.
Definition mask_and (xs ys : list bool) : list bool := map2 andb xs ys.

(** From [df['sma20'] = ...] to [fillna(0)]: the columns both calculators
    add to the frame [df], given how they call [rolling]. *)
Definition add_columns (min_periods : nat -> option nat)
    (p20 p50 p200 : nat) (df : list Bar) : SignalTable :=
  let closes := map close df in
  let c := map Fin closes in
  let s20 := rolling_mean p20 (min_periods p20) closes in
  let s50 := rolling_mean p50 (min_periods p50) closes in
  let s200 := rolling_mean p200 (min_periods p200) closes in
  let uptrend :=
    mask_and (mask_and (mask_gt c s20) (mask_gt s20 s50)) (mask_gt s50 s200) in
  let downtrend :=
    mask_and (mask_and (mask_lt c s20) (mask_lt s20 s50)) (mask_lt s50 s200) in
  let sig0 := repeat 0%Z (length df) in
  let sig1 := loc_set uptrend 1%Z sig0 in
  let sig := loc_set downtrend (-1)%Z sig1 in
  let ret := pct_change closes in
  let strat := map2 fmul (shift1 (map of_int sig)) ret in
  mkTable df s20 s50 s200 sig (diff sig) ret (map (fillna 0%Q) strat).

(* ------------------------------------------------------------------ *)
(** ** calculate_triple_sma_enhanced *)

(** l. 497-499: the three successive row filters. *)
Definition positive_prices (b : Bar) : bool :=
  Qltb 0 (open b) && Qltb 0 (high b) && Qltb 0 (low b) && Qltb 0 (close b).
Definition high_ge_low (b : Bar) : bool := Qle_bool (low b) (high b).
Definition close_in_range (b : Bar) : bool :=
  Qle_bool (close b) (high b) && Qle_bool (low b) (close b).

Definition remove_invalid (data : list Bar) : list Bar :=
  filter close_in_range (filter high_ge_low (filter positive_prices data)).

(** l. 509: [set_index('date').sort_index()].  Rows with the same date keep
    their relative order here; pandas leaves that order to its sort kind. *)
Fixpoint insert_bar (b : Bar) (l : list Bar) : list Bar :=
  match l with
  | [] => [b]
  | x :: r => if (date b <=? date x)%Z then b :: l else x :: insert_bar b r
  end.

Definition sort_index (df : list Bar) : list Bar :=
  fold_right insert_bar [] df.

(** l. 549: [df.dropna(subset=['sma20','sma50','sma200'])], as the row
    numbers that stay. *)
Definition dropna_sma (t : SignalTable) : list nat :=
  filter (fun i => notna (nth i (sma20 t) NaN)
                   && notna (nth i (sma50 t) NaN)
                   && notna (nth i (sma200 t) NaN))
         (seq 0 (nrows t)).

Definition enhanced_min_periods (p : nat) : option nat := Some p.

Definition calculate_triple_sma_enhanced
    (data : list Bar) (p20 p50 p200 : nat) : result SignalTable :=
  _ <- raise_if (length data <? p200)
                (InsufficientData (length data) p200) ;;
  let df := remove_invalid data in
  _ <- first df ;;
  let df := sort_index df in
  let t := add_columns enhanced_min_periods p20 p50 p200 df in
  let valid_sma_data := dropna_sma t in
  _ <- raise_if (nrows t =? 0) ZeroDivisionError ;;
  _ <- first valid_sma_data ;;
  Ok t.

(* ------------------------------------------------------------------ *)
(** ** calculate_triple_sma_optimized *)

Definition optimized_min_periods (p : nat) : option nat := None.

Definition calculate_triple_sma_optimized
    (data : list Bar) (p20 p50 p200 : nat) : result SignalTable :=
  _ <- first data ;;
  Ok (add_columns optimized_min_periods p20 p50 p200 data).

(* ------------------------------------------------------------------ *)
(** ** functools.lru_cache *)

(** The wrapper keeps the results of the calls that returned, keyed by the
    arguments as passed, most recently used first.  A call whose key is
    present returns the stored result and moves the entry to the front; a
    call that raises stores nothing; a call that returns stores its result
    and, beyond [maxsize] entries, drops the least recently used one. *)
Section LruCache.
Variables K V : Type.
Variable K_eq_dec : forall a b : K, {a = b} + {a <> b}.
Variable user_function : K -> result V.
Variable maxsize : nat.

Definition cache : Type := list (K * V).

Fixpoint cache_get (k : K) (c : cache) : option V :=
  match c with
  | [] => None
  | (k', v) :: r => if K_eq_dec k k' then Some v else cache_get k r
  end.

Fixpoint cache_del (k : K) (c : cache) : cache :=
  match c with
  | [] => []
  | (k', v) :: r =>
      if K_eq_dec k k' then cache_del k r else (k', v) :: cache_del k r
  end.

Definition lru_call (c : cache) (k : K) : result V * cache :=
  match cache_get k c with
  | Some v => (Ok v, (k, v) :: cache_del k c)
  | None =>
      match user_function k with
      | Ok v => (Ok v, firstn maxsize ((k, v) :: c))
      | Err e => (Err e, c)
      end
  end.

(** The cache after a sequence of calls. *)
Definition lru_calls (c : cache) (ks : list K) : cache :=
  fold_left (fun c k => snd (lru_call c k)) ks c.

(** Every stored result is the result of the function on its key. *)
Definition cache_sound (c : cache) : Prop :=
  forall k v, cache_get k c = Some v -> user_function k = Ok v.
End LruCache.

Arguments cache_get {K V} K_eq_dec k c.
Arguments cache_del {K V} K_eq_dec k c.
Arguments lru_call {K V} K_eq_dec user_function maxsize c k.
Arguments lru_calls {K V} K_eq_dec user_function maxsize c ks.
Arguments cache_sound {K V} K_eq_dec user_function c.

(** The arguments of one call of a calculator, as passed: the bars, and
    each period either given or left to its default.  Python compares the
    bars of two keys by value; a float has one representation here, so
    that is equality of the records. *)
Record call_args : Type := mkArgs {
  data_tuple : list Bar;
  sma20_period : option nat;
  sma50_period : option nat;
  sma200_period : option nat
}.

Definition Q_eq_dec (x y : Q) : {x = y} + {x <> y}.
Proof. decide equality; [apply Pos.eq_dec | apply Z.eq_dec]. Defined.

Definition Bar_eq_dec (x y : Bar) : {x = y} + {x <> y}.
Proof. decide equality; first [apply Z.eq_dec | apply Q_eq_dec]. Defined.

Definition call_args_eq_dec (x y : call_args) : {x = y} + {x <> y}.
Proof.
  decide equality;
    first [ apply (list_eq_dec Bar_eq_dec)
          | decide equality; apply Nat.eq_dec ].
Defined.

Definition with_defaults
    (f : list Bar -> nat -> nat -> nat -> result SignalTable)
    (a : call_args) : result SignalTable :=
  f (data_tuple a)
    (match sma20_period a with Some p => p | None => 20 end)
    (match sma50_period a with Some p => p | None => 50 end)
    (match sma200_period a with Some p => p | None => 200 end).

(** The two decorated functions.  A hit hands back the frame stored by the
    first call, the same object; nothing in the notebooks writes to a frame
    a calculator returned, so a stored frame is a value here. *)
Definition cached_enhanced :
  cache call_args SignalTable -> call_args ->
  result SignalTable * cache call_args SignalTable :=
  lru_call call_args_eq_dec (with_defaults calculate_triple_sma_enhanced) 32.

Definition cached_optimized :
  cache call_args SignalTable -> call_args ->
  result SignalTable * cache call_args SignalTable :=
  lru_call call_args_eq_dec (with_defaults calculate_triple_sma_optimized) 32.

(** The cache of a process that has made the calls [history] so far. *)
Definition cache_after_enhanced (history : list call_args)
  : cache call_args SignalTable :=
  lru_calls call_args_eq_dec (with_defaults calculate_triple_sma_enhanced) 32
    [] history.

Definition cache_after_optimized (history : list call_args)
  : cache call_args SignalTable :=
  lru_calls call_args_eq_dec (with_defaults calculate_triple_sma_optimized) 32
    [] history.

(* ------------------------------------------------------------------ *)
(** ** ConnectionManager.test_network_connection *)

(** One entry of [connection_history].  A successful attempt carries a
    ['latency'], a failed one an ['error']. *)
Record ConnectionAttempt : Type := mkAttempt {
  timestamp : Z;
  host : string;
  port : Z;
  status : string;
  latency : option Q;
  error : option string
}.

Record ConnectionManager : Type := mkManager {
  ngrok_status : option string;
  ibkr_status : option string;
  last_successful_connection : option Z;
  connection_history : list ConnectionAttempt
}.

(** What the body of the [try] (l. 137-140) can do: connect and close,
    with the time that took, or raise [socket.gaierror], [socket.timeout]
    or some other [Exception]; [e] is [str(e)].  An interrupt of the
    process (a [BaseException] that is no [Exception]) is caught by no
    handler and is not an outcome here. *)
Inductive try_outcome : Type :=
| connected (connection_time : Q)
| raised_gaierror (e : string)
| raised_timeout
| raised_other (e : string).

(** [self.connection_history.append(entry)]. *)
Definition history_append (self : ConnectionManager) (entry : ConnectionAttempt)
  : ConnectionManager :=
  mkManager (ngrok_status self) (ibkr_status self)
            (last_successful_connection self)
            (connection_history self ++ [entry]).

Definition str_int (z : Z) : string := NilZero.string_of_int (Z.to_int z).

Section TestNetworkConnection.
(** [f"{x:.3f}"]. *)
Variable format_3f : Q -> string.
(** [datetime.datetime.now()] when the entry is built. *)
Variable now : Z.

Definition test_network_connection
    (self : ConnectionManager) (host : string) (port : Z) (timeout : Z)
    (outcome : try_outcome) : (bool * string) * ConnectionManager :=
  match outcome with
  | connected connection_time =>
      let self := history_append self
        (mkAttempt now host port "success" (Some connection_time) None) in
      ((true, "Connected in " ++ format_3f connection_time ++ "s"), self)
  | raised_gaierror e =>
      let error_msg := "DNS resolution failed: " ++ e in
      let self := history_append self
        (mkAttempt now host port "dns_error" None (Some e)) in
      ((false, error_msg), self)
  | raised_timeout =>
      let error_msg := "Connection timeout after " ++ str_int timeout ++ "s" in
      let self := history_append self
        (mkAttempt now host port "timeout" None (Some error_msg)) in
      ((false, error_msg), self)
  | raised_other e =>
      let error_msg := "Connection failed: " ++ e in
      let self := history_append self
        (mkAttempt now host port "error" None (Some e)) in
      ((false, error_msg), self)
  end%string.
End TestNetworkConnection.

(** The three kinds of failure the probe tells apart, the text its
    message starts with for each, and the status it logs. *)
Inductive failure_kind : Type :=
| name_resolution_failure
| connection_timeout
| other_failure.

Definition kind_of (outcome : try_outcome) : option failure_kind :=
  match outcome with
  | connected _ => None
  | raised_gaierror _ => Some name_resolution_failure
  | raised_timeout => Some connection_timeout
  | raised_other _ => Some other_failure
  end.

Definition kind_text (k : failure_kind) : string :=
  match k with
  | name_resolution_failure => "DNS resolution failed: "
  | connection_timeout => "Connection timeout after "
  | other_failure => "Connection failed: "
  end.

Definition kind_status (k : failure_kind) : string :=
  match k with
  | name_resolution_failure => "dns_error"
  | connection_timeout => "timeout"
  | other_failure => "error"
  end.

(** Float values that are a number or NaN. *)
Definition finite_or_nan (a : fval) : Prop := forall s, a <> Inf s.

Definition date_le (a b : Bar) : Prop := (date a <= date b)%Z.

(* ------------------------------------------------------------------ *)
(** ** Reading a row of a table *)

Definition close_at (t : SignalTable) (i : nat) : Q :=
  nth i (map close (bars t)) 0%Q.
Definition date_at (t : SignalTable) (i : nat) : Z :=
  nth i (map date (bars t)) 0%Z.
Definition sma20_at (t : SignalTable) (i : nat) : fval := nth i (sma20 t) NaN.
Definition sma50_at (t : SignalTable) (i : nat) : fval := nth i (sma50 t) NaN.
Definition sma200_at (t : SignalTable) (i : nat) : fval := nth i (sma200 t) NaN.
Definition signal_at (t : SignalTable) (i : nat) : Z := nth i (signal t) 0%Z.
Definition returns_at (t : SignalTable) (i : nat) : fval :=
  nth i (returns t) NaN.
Definition strategy_returns_at (t : SignalTable) (i : nat) : fval :=
  nth i (strategy_returns t) NaN.

(** Strict alignment of the close and the three averages on row [i]:
    all three averages have a value and
    [close > sma20 > sma50 > sma200]. *)
Definition uptrend_at (t : SignalTable) (i : nat) : Prop :=
  exists s20 s50 s200 : Q,
    sma20_at t i = Fin s20 /\ sma50_at t i = Fin s50 /\
    sma200_at t i = Fin s200 /\
    (s20 < close_at t i)%Q /\ (s50 < s20)%Q /\ (s200 < s50)%Q.

(** The reverse alignment: [close < sma20 < sma50 < sma200]. *)
Definition downtrend_at (t : SignalTable) (i : nat) : Prop :=
  exists s20 s50 s200 : Q,
    sma20_at t i = Fin s20 /\ sma50_at t i = Fin s50 /\
    sma200_at t i = Fin s200 /\
    (close_at t i < s20)%Q /\ (s20 < s50)%Q /\ (s50 < s200)%Q.

(** The two implementations of the signal computation. *)
Definition computeSignals_returns
    (data : list Bar) (p20 p50 p200 : nat) (t : SignalTable) : Prop :=
  calculate_triple_sma_enhanced data p20 p50 p200 = Ok t \/
  calculate_triple_sma_optimized data p20 p50 p200 = Ok t.

(* ------------------------------------------------------------------ *)
(** ** Sample inputs *)

(** A bar whose four prices are all [c]. *)
Definition flat_bar (d : Z) (c : Q) : Bar := mkBar d c c c c 0%Z.

(** Five daily bars with closes 1, 2, 3, 4, 5. *)
Definition rising5 : list Bar :=
  [flat_bar 1 1; flat_bar 2 2; flat_bar 3 3; flat_bar 4 4; flat_bar 5 5].

Definition rising5_table : SignalTable :=
  add_columns enhanced_min_periods 2 3 4 rising5.

(** Two bars given latest first. *)
Definition unsorted2 : list Bar := [flat_bar 2 7; flat_bar 1 5].

(** Five bars given out of order. *)
Definition unsorted5 : list Bar :=
  [flat_bar 3 3; flat_bar 1 1; flat_bar 5 5; flat_bar 2 2; flat_bar 4 4].

(** What row [i] of a rolling mean of window [w] over [closes] must be
    when only full windows count: a value exactly when the [w] rows ending
    at [i] exist, and then their mean. *)
Definition full_window_average
    (w : nat) (closes : list Q) (i : nat) (v : fval) : Prop :=
  (S i < w -> v = NaN) /\
  (v <> NaN <-> 0 < w <= S i) /\
  (v <> NaN ->
   length (window_at w closes i) = w /\ v = Fin (mean (window_at w closes i))).

(** [n] daily bars, all prices 1. *)
Definition flat_series (n : nat) : list Bar :=
  map (fun k => flat_bar (Z.of_nat k) 1) (seq 0 n).

(** 200 bars, the last with its close above its high. *)
Definition one_bad_of_200 : list Bar :=
  flat_series 199 ++ [mkBar 199 1 1 1 2 0%Z].

(** The price invariants of a bar: positive open, high, low and close,
    [high >= low], [low <= close <= high]. *)
Definition bar_invariant (b : Bar) : Prop :=
  (0 < open b /\ 0 < high b /\ 0 < low b /\ 0 < close b /\
   low b <= high b /\ low b <= close b /\ close b <= high b)%Q.

Definition valid_bar (b : Bar) : bool :=
  positive_prices b && high_ge_low b && close_in_range b.

(** l. 494-502: [original_rows - len(df)], the number of bars the filters
    removed. *)
Definition discarded (data : list Bar) : nat :=
  length data - length (remove_invalid data).

(* ------------------------------------------------------------------ *)
(** ** EnhancedIBapi (improved-colab-notebook.py, l. 209-316)

    The wrapper's attributes and the callbacks the broker library invokes
    on it.  Events are taken one at a time, in the order they happen;
    console output is not represented, and neither is the unused
    [positions] attribute. *)

(** [str.split(',')]. *)
Fixpoint split_comma (s : string) : list string :=
  match s with
  | EmptyString => [EmptyString]
  | String c r =>
      if Ascii.eqb c ","%char then EmptyString :: split_comma r
      else match split_comma r with
           | h :: t => String c h :: t
           | [] => [String c EmptyString]
           end
  end.

(** [d[k] = v] on a dict kept in insertion order. *)
Fixpoint dict_set (k : Z) (v : string) (d : list (Z * string))
  : list (Z * string) :=
  match d with
  | [] => [(k, v)]
  | (k', v') :: r =>
      if (k =? k')%Z then (k, v) :: r else (k', v') :: dict_set k v r
  end.

Definition Z_mem (x : Z) (l : list Z) : bool := existsb (Z.eqb x) l.

Module EnhancedIBapi.

(** The three texts filed under [data_quality_issues]; [d] stands for
    [{bar.date}]:
    "Invalid price data on ...", "High < Low on ...",
    "Close outside High/Low range on ...". *)
Inductive quality_issue : Type :=
| Invalid_price_data_on (d : Z)
| High_lt_Low_on (d : Z)
| Close_outside_range_on (d : Z).

Record t : Type := mk {
  data : list Bar;
  data_received : bool;
  connection_status : string;
  last_error : option (Z * string);
  data_quality_issues : list quality_issue;
  connection_time : option Q;
  managed_accounts : list string;
  market_data_status : list (Z * string);
  nextOrderId : option Z
}.

(** [__init__]. *)
Definition init : t :=
  mk [] false "disconnected" None [] None [] [] None.

Definition set_connection_status (self : t) (v : string) : t :=
  mk (data self) (data_received self) v (last_error self)
     (data_quality_issues self) (connection_time self)
     (managed_accounts self) (market_data_status self) (nextOrderId self).

Definition set_last_error (self : t) (v : option (Z * string)) : t :=
  mk (data self) (data_received self) (connection_status self) v
     (data_quality_issues self) (connection_time self)
     (managed_accounts self) (market_data_status self) (nextOrderId self).

Definition set_market_data_status (self : t) (v : list (Z * string)) : t :=
  mk (data self) (data_received self) (connection_status self)
     (last_error self) (data_quality_issues self) (connection_time self)
     (managed_accounts self) v (nextOrderId self).

Definition add_issue (self : t) (i : quality_issue) : t :=
  mk (data self) (data_received self) (connection_status self)
     (last_error self) (data_quality_issues self ++ [i])
     (connection_time self) (managed_accounts self)
     (market_data_status self) (nextOrderId self).

Definition connectAck (self : t) : t :=
  set_connection_status self "acknowledged".

(** [time_now] is [time.time()], [now] is [datetime.datetime.now()]; the
    callback also writes the process-wide [conn_mgr]. *)
Definition nextValidId (self : t) (conn_mgr : ConnectionManager)
    (orderId : Z) (time_now : Q) (now : Z) : t * ConnectionManager :=
  (mk (data self) (data_received self) "connected" (last_error self)
      (data_quality_issues self) (Some time_now) (managed_accounts self)
      (market_data_status self) (Some orderId),
   mkManager (ngrok_status conn_mgr) (ibkr_status conn_mgr) (Some now)
             (connection_history conn_mgr)).

Definition managedAccounts (self : t) (accountsList : string) : t :=
  mk (data self) (data_received self) (connection_status self)
     (last_error self) (data_quality_issues self) (connection_time self)
     (match accountsList with
      | EmptyString => []
      | _ => split_comma accountsList
      end)
     (market_data_status self) (nextOrderId self).

Definition historicalData (self : t) (reqId : Z) (bar : Bar) : t :=
  if Qle_bool (open bar) 0 || Qle_bool (high bar) 0
     || Qle_bool (low bar) 0 || Qle_bool (close bar) 0
  then add_issue self (Invalid_price_data_on (date bar))
  else if Qltb (high bar) (low bar)
  then add_issue self (High_lt_Low_on (date bar))
  else if Qltb (high bar) (close bar) || Qltb (close bar) (low bar)
  then add_issue self (Close_outside_range_on (date bar))
  else mk (data self ++ [bar]) (data_received self) (connection_status self)
          (last_error self) (data_quality_issues self)
          (connection_time self) (managed_accounts self)
          (market_data_status self) (nextOrderId self).

Definition historicalDataEnd (self : t) (reqId : Z) (start end_ : string) : t :=
  mk (data self) true (connection_status self) (last_error self)
     (data_quality_issues self) (connection_time self)
     (managed_accounts self) (market_data_status self) (nextOrderId self).

Definition error (self : t) (reqId errorCode : Z) (errorString : string) : t :=
  let self := set_last_error self (Some (errorCode, errorString)) in
  if Z_mem errorCode [2104; 2106; 2158]%Z then
    set_market_data_status self
      (dict_set errorCode errorString (market_data_status self))
  else if Z_mem errorCode [2137; 2138]%Z then self
  else if Z_mem errorCode [502; 503; 504]%Z then
    set_connection_status self "error"
  else if (errorCode =? 162)%Z then self
  else if (errorCode =? 200)%Z then self
  else if (1100 <=? errorCode)%Z && (errorCode <=? 1102)%Z then self
  else self.

Definition connectionClosed (self : t) : t :=
  set_connection_status self "disconnected".

Record summary : Type := mkSummary {
  summary_status : string;
  accounts : nat;
  data_bars : nat;
  summary_data_quality_issues : nat;
  market_data_farms : nat;
  summary_connection_time : option Q
}.

Definition get_connection_summary (self : t) : summary :=
  mkSummary (connection_status self) (length (managed_accounts self))
            (length (data self)) (length (data_quality_issues self))
            (length (market_data_status self)) (connection_time self).

(** run_enhanced_strategy, l. 776-778: the reset before a data request. *)
Definition reset_for_request (self : t) : t :=
  mk [] false (connection_status self) (last_error self) []
     (connection_time self) (managed_accounts self)
     (market_data_status self) (nextOrderId self).

(** What can happen to a wrapper, one event at a time. *)
Inductive event : Type :=
| ConnectAck
| NextValidId (orderId : Z) (time_now : Q) (now : Z)
| ManagedAccounts (accountsList : string)
| HistoricalData (reqId : Z) (bar : Bar)
| HistoricalDataEnd (reqId : Z) (start end_ : string)
| Error (reqId errorCode : Z) (errorString : string)
| ConnectionClosed
| ResetForRequest.

Definition step (st : t * ConnectionManager) (e : event)
  : t * ConnectionManager :=
  let (self, conn_mgr) := st in
  match e with
  | ConnectAck => (connectAck self, conn_mgr)
  | NextValidId orderId time_now now =>
      nextValidId self conn_mgr orderId time_now now
  | ManagedAccounts accountsList =>
      (managedAccounts self accountsList, conn_mgr)
  | HistoricalData reqId bar => (historicalData self reqId bar, conn_mgr)
  | HistoricalDataEnd reqId start end_ =>
      (historicalDataEnd self reqId start end_, conn_mgr)
  | Error reqId errorCode errorString =>
      (error self reqId errorCode errorString, conn_mgr)
  | ConnectionClosed => (connectionClosed self, conn_mgr)
  | ResetForRequest => (reset_for_request self, conn_mgr)
  end.

Definition run (st : t * ConnectionManager) (es : list event)
  : t * ConnectionManager :=
  fold_left step es st.

(** The bars of one historical-data answer, delivered in order. *)
Definition receive (self : t) (reqId : Z) (bars : list Bar) : t :=
  fold_left (fun s b => historicalData s reqId b) bars self.

End EnhancedIBapi.

(** A fresh process: a new wrapper and the module-level [conn_mgr]. *)
Definition fresh_manager : ConnectionManager := mkManager None None None [].

Definition fresh_process : EnhancedIBapi.t * ConnectionManager :=
  (EnhancedIBapi.init, fresh_manager).

(** 250 valid bars with three invalid ones among them. *)
Definition mixed_answer : list Bar :=
  mkBar 1000 0 1 1 1 0%Z :: flat_series 100
  ++ mkBar 1001 1 1 2 1 0%Z :: mkBar 1002 1 1 1 2 0%Z
  :: map (fun k => flat_bar (Z.of_nat k) 1) (seq 100 150).

(** The codes [error] files under [market_data_status], and what holds
    of that dictionary: no key twice, every key one of the three codes. *)
Definition farm_codes : list Z := [2104; 2106; 2158]%Z.

Definition farms_ok (self : EnhancedIBapi.t) : Prop :=
  NoDup (map fst (EnhancedIBapi.market_data_status self)) /\
  incl (map fst (EnhancedIBapi.market_data_status self)) farm_codes.

(* ------------------------------------------------------------------ *)
(** ** Trade statistics (generate_enhanced_analytics, l. 888-891 of
    improved-colab-notebook.py; test_triple_sma_strategy, l. 451-454 of
    triple-sma-colab-notebook.py) *)

(** [a != b] on floats: true as soon as one side is NaN. *)
Definition fneb (a b : fval) : bool :=
  match a, b with
  | Fin x, Fin y => negb (Qeq_bool x y)
  | Inf s, Inf s' => negb (Bool.eqb s s')
  | _, _ => true
  end.

Definition position_at (t : SignalTable) (i : nat) : fval :=
  nth i (position t) NaN.

(** [len(df[df['position'] != 0])], [len(df[df['position'] > 0])],
    [len(df[df['position'] < 0])]. *)
Definition total_trades (df : SignalTable) : nat :=
  length (filter (fun p => fneb p (Fin 0)) (position df)).
Definition buy_signals (df : SignalTable) : nat :=
  length (filter (fun p => fgtb p (Fin 0)) (position df)).
Definition sell_signals (df : SignalTable) : nat :=
  length (filter (fun p => fltb p (Fin 0)) (position df)).

Definition is_Fin (a : fval) : Prop := exists q, a = Fin q.

(* ------------------------------------------------------------------ *)
(** ** analyze_current_signal (improved-colab-notebook.py, l. 941-1010)

    The function prints; what is kept here is what it decides: the signal
    line and the trend lines of its report. *)

Definition STRONG_BUY : string := "🚀 STRONG BUY (Bullish Trend)".
Definition STRONG_SELL : string := "🔻 STRONG SELL (Bearish Trend)".
Definition NEUTRAL : string := "➡️ NEUTRAL (Mixed Conditions)".

Record SignalAnalysis : Type := mkAnalysis {
  signal_text : string;
  signal_color : string;
  sma_alignment : string;
  trend_strength : string
}.

Definition analyze_current_signal (df : SignalTable) : result SignalAnalysis :=
  (* latest = df.iloc[-1] *)
  _ <- raise_if (nrows df =? 0) IndexError ;;
  let latest := nrows df - 1 in
  let current_signal := signal_at df latest in
  let sma20 := sma20_at df latest in
  let sma50 := sma50_at df latest in
  let sma200 := sma200_at df latest in
  let (signal_text, signal_color) :=
    if (current_signal =? 1)%Z then (STRONG_BUY, "🟢"%string)
    else if (current_signal =? -1)%Z then (STRONG_SELL, "🔴"%string)
    else (NEUTRAL, "🟡"%string) in
  let sma_alignment :=
    if (fgtb sma20 sma50 && fgtb sma50 sma200)
       || (fltb sma20 sma50 && fltb sma50 sma200)
    then "Aligned"%string else "Mixed"%string in
  let trend_strength :=
    if String.eqb sma_alignment "Aligned" then "Strong"%string
    else "Weak"%string in
  Ok (mkAnalysis signal_text signal_color sma_alignment trend_strength).

(* ------------------------------------------------------------------ *)
(** ** ConnectionManager.get_connection_stats (l. 185-198) and the
    network tests of comprehensive_connection_test (l. 362-378) *)

Definition is_success (c : ConnectionAttempt) : bool :=
  String.eqb (status c) "success".

Definition total_attempts (self : ConnectionManager) : nat :=
  length (connection_history self).

Definition successful_attempts (self : ConnectionManager)
  : list ConnectionAttempt :=
  filter is_success (connection_history self).

(** [[c.get('latency', 0) for c in ... if c['status'] == 'success']]. *)
Definition success_latencies (self : ConnectionManager) : list Q :=
  map (fun c => match latency c with Some l => l | None => 0%Q end)
      (successful_attempts self).

Definition str_nat (n : nat) : string := str_int (Z.of_nat n).

Section ConnectionStats.
(** [f"{x:.1f}"] and [f"{x:.3f}"]. *)
Variables format_1f format_3f : Q -> string.

Definition get_connection_stats (self : ConnectionManager) : string :=
  match connection_history self with
  | [] => "No connection attempts recorded"
  | _ :: _ =>
      let total_attempts := total_attempts self in
      let successful := length (successful_attempts self) in
      let success_rate :=
        (inject_Z (Z.of_nat successful) / inject_Z (Z.of_nat total_attempts)
         * 100)%Q in
      if (0 <? successful)%nat then
        let avg_latency := mean (success_latencies self) in
        "Success rate: " ++ format_1f success_rate ++ "% ("
          ++ str_nat successful ++ "/" ++ str_nat total_attempts
          ++ "), Avg latency: " ++ format_3f avg_latency ++ "s"
      else
        "Success rate: 0% (0/" ++ str_nat total_attempts ++ ")"
  end%string.

(** One call of the probe: when it is made, on what, and what the socket
    does. *)
Record attempt : Type := mkTry {
  try_now : Z;
  try_host : string;
  try_port : Z;
  try_timeout : Z;
  try_result : try_outcome
}.

Definition probe (self : ConnectionManager) (a : attempt)
  : (bool * string) * ConnectionManager :=
  test_network_connection format_3f (try_now a) self
    (try_host a) (try_port a) (try_timeout a) (try_result a).

(** A sequence of probe calls on the same manager. *)
Definition probes (self : ConnectionManager) (attempts : list attempt)
  : ConnectionManager :=
  fold_left (fun s a => snd (probe s a)) attempts self.

(** l. 363-366: three probes of [host:port] with [timeout=8], their
    verdicts collected in [test_results].  [env] gives, for each of the
    three, the time of the call and what the socket does. *)
Definition network_tests (self : ConnectionManager) (host : string)
    (port : Z) (env : list (Z * try_outcome)) : list bool * ConnectionManager :=
  fold_left
    (fun (acc : list bool * ConnectionManager) (e : Z * try_outcome) =>
       let (test_results, self) := acc in
       let r := test_network_connection format_3f (fst e) self host port 8
                  (snd e) in
       (test_results ++ [fst (fst r)], snd r))
    (firstn 3 env) ([], self).
End ConnectionStats.

(** l. 375-376: [sum(test_results) / len(test_results)] and the test
    [success_rate < 0.7]. *)
Definition success_rate (test_results : list bool) : Q :=
  (inject_Z (Z.of_nat (length (filter (fun b => b) test_results)))
   / inject_Z (Z.of_nat (length test_results)))%Q.

Definition network_unreliable (test_results : list bool) : bool :=
  Qltb (success_rate test_results) (7 # 10).

Definition did_connect (o : try_outcome) : bool :=
  match o with connected _ => true | _ => false end.

Definition connection_time_of (o : try_outcome) : list Q :=
  match o with connected ct => [ct] | _ => [] end.

(* ------------------------------------------------------------------ *)
(** ** ConnectionManager.check_ngrok_status (l. 101-132) *)

(** One element of the ['tunnels'] list, as far as the function reads it:
    the keys ['public_url'], ['config'] (and, inside it, ['addr']) and
    ['proto'], each present or not. *)
Record tunnel_json : Type := mkTunnelJson {
  json_public_url : option string;
  json_config : option (option string);
  json_proto : option string
}.

(** One element of the [tunnel_info] list that is returned. *)
Record tunnel_info : Type := mkTunnelInfo {
  public_url : string;
  local_addr : string;
  proto : string
}.

(** What reading the body gives: the list under ['tunnels'], or an
    exception ([response.json()] failing, the key missing); [e] is
    [str(e)]. *)
Inductive json_outcome : Type :=
| json_raised (e : string)
| json_tunnels (tunnels : list tunnel_json).

(** What [requests.get] does: answer with a status code and a body, raise
    [requests.exceptions.ConnectionError], or raise another [Exception]. *)
Inductive get_outcome : Type :=
| responded (status_code : Z) (json : json_outcome)
| raised_ConnectionError
| raised_get_Exception (e : string).

(** The loop of l. 111-118; the right side is the [KeyError] of the first
    key found missing, as [str(e)] prints it. *)
Fixpoint read_tunnels (tunnels : list tunnel_json) (info : list tunnel_info)
  : list tunnel_info + string :=
  match tunnels with
  | [] => inl info
  | tunnel :: rest =>
      match json_public_url tunnel with
      | None => inr "'public_url'"%string
      | Some public_url =>
          match json_config tunnel with
          | None => inr "'config'"%string
          | Some config =>
              match config with
              | None => inr "'addr'"%string
              | Some addr =>
                  match json_proto tunnel with
                  | None => inr "'proto'"%string
                  | Some proto =>
                      read_tunnels rest
                        (info ++ [mkTunnelInfo public_url addr proto])
                  end
              end
          end
      end
  end.

Definition set_ngrok_status (self : ConnectionManager) (v : string)
  : ConnectionManager :=
  mkManager (Some v) (ibkr_status self) (last_successful_connection self)
            (connection_history self).

Definition check_ngrok_status (self : ConnectionManager) (outcome : get_outcome)
  : (bool * (list tunnel_info + string)) * ConnectionManager :=
  match outcome with
  | responded status_code json =>
      if (status_code =? 200)%Z then
        match json with
        | json_tunnels ((_ :: _) as tunnels) =>
            let self := set_ngrok_status self "active" in
            match read_tunnels tunnels [] with
            | inl info => ((true, inl info), self)
            | inr e =>
                ((false, inr ("Error checking ngrok: " ++ e)%string),
                 set_ngrok_status self "error")
            end
        | json_tunnels [] =>
            ((false, inr "ngrok running but no tunnels found"%string),
             set_ngrok_status self "no_tunnels")
        | json_raised e =>
            ((false, inr ("Error checking ngrok: " ++ e)%string),
             set_ngrok_status self "error")
        end
      else
        ((false,
          inr ("ngrok API returned status: " ++ str_int status_code)%string),
         set_ngrok_status self "error")
  | raised_ConnectionError =>
      ((false,
        inr "ngrok not running or not accessible on port 4040"%string),
       set_ngrok_status self "not_running")
  | raised_get_Exception e =>
      ((false, inr ("Error checking ngrok: " ++ e)%string),
       set_ngrok_status self "error")
  end.

(** The number of entries of a list, as a rational. *)
Definition Qlength {A : Type} (l : list A) : Q :=
  inject_Z (Z.of_nat (length l)).

(** The number of commas of a string. *)
Fixpoint count_commas (s : string) : nat :=
  match s with
  | EmptyString => 0
  | String c r => (if Ascii.eqb c ","%char then 1 else 0) + count_commas r
  end.

(** A tunnel object on which one of the keys the loop reads is missing. *)
Definition missing_key (tunnel : tunnel_json) : Prop :=
  json_public_url tunnel = None \/ json_config tunnel = None \/
  json_config tunnel = Some None \/ json_proto tunnel = None.

(* ================================================================== *)
(** * Properties *)

(* ------------------------------------------------------------------ *)
(** ** Facts about columns *)

Lemma map2_length {A B C} (f : A -> B -> C) xs ys :
  length (map2 f xs ys) = Nat.min (length xs) (length ys).
Proof.
  revert ys; induction xs as [|x xs IH]; intros [|y ys]; simpl; auto.
Qed.

Lemma map2_nth {A B C} (f : A -> B -> C) xs ys i dx dy d :
  i < length xs -> i < length ys ->
  nth i (map2 f xs ys) d = f (nth i xs dx) (nth i ys dy).
Proof.
  revert ys i; induction xs as [|x xs IH]; intros [|y ys] [|i]; simpl;
    intros Hx Hy; try lia; auto.
  apply IH; lia.
Qed.

Lemma removelast_length {A} (xs : list A) :
  length (removelast xs) = length xs - 1.
Proof.
  induction xs as [|x [|y xs] IH]; simpl in *; auto. lia.
Qed.

Lemma removelast_nth {A} (xs : list A) i d :
  S i < length xs -> nth i (removelast xs) d = nth i xs d.
Proof.
  revert i; induction xs as [|x [|y xs] IH]; intros i H; simpl in H; try lia.
  destruct i as [|i]; [reflexivity|].
  change (nth i (removelast (y :: xs)) d = nth i (y :: xs) d).
  apply IH. simpl. lia.
Qed.

Lemma shift1_length xs : length (shift1 xs) = length xs.
Proof.
  destruct xs as [|x xs]; [reflexivity|].
  unfold shift1. cbn [length]. rewrite removelast_length. simpl. lia.
Qed.

Lemma shift1_nth_0 xs d : xs <> [] -> nth 0 (shift1 xs) d = NaN.
Proof. destruct xs; [congruence | reflexivity]. Qed.

Lemma shift1_nth_S xs i d :
  S i < length xs -> nth (S i) (shift1 xs) d = nth i xs d.
Proof.
  destruct xs as [|x xs]; simpl; [lia|]. intros H.
  apply (removelast_nth (x :: xs)). simpl. lia.
Qed.

Lemma window_at_length w xs i :
  i < length xs -> length (window_at w xs i) = Nat.min w (S i).
Proof.
  intros H. unfold window_at.
  rewrite length_skipn, length_firstn. lia.
Qed.

Lemma rolling_mean_length w m xs :
  length (rolling_mean w m xs) = length xs.
Proof. unfold rolling_mean. now rewrite length_map, length_seq. Qed.

(** A row of a rolling mean, when the minimum is the window size itself
    (which is how both calculators call it). *)
Lemma rolling_mean_nth w m xs i :
  match m with Some k => k | None => w end = w ->
  i < length xs ->
  nth i (rolling_mean w m xs) NaN =
    if (w <=? S i) && (0 <? w) then Fin (mean (window_at w xs i)) else NaN.
Proof.
  intros Hm Hi. unfold rolling_mean. rewrite Hm.
  rewrite (nth_indep _ NaN
             ((fun j => if (w <=? length (window_at w xs j))
                           && (0 <? length (window_at w xs j))
                        then Fin (mean (window_at w xs j)) else NaN) 0))
    by now rewrite length_map, length_seq.
  rewrite (map_nth (fun j => if (w <=? length (window_at w xs j))
                               && (0 <? length (window_at w xs j))
                             then Fin (mean (window_at w xs j)) else NaN)).
  rewrite seq_nth by assumption. cbn [Nat.add].
  rewrite window_at_length by assumption.
  destruct (w <=? S i) eqn:E1.
  - apply Nat.leb_le in E1. rewrite Nat.min_l by lia.
    now rewrite Nat.leb_refl.
  - apply Nat.leb_gt in E1. rewrite Nat.min_r by lia.
    apply Nat.leb_gt in E1. rewrite E1. reflexivity.
Qed.

Lemma rolling_mean_not_inf w m xs i s :
  nth i (rolling_mean w m xs) NaN <> Inf s.
Proof.
  destruct (Nat.lt_ge_cases i (length xs)) as [Hi|Hi].
  - unfold rolling_mean.
    set (f := fun j : nat => _).
    rewrite (nth_indep _ NaN (f 0)) by now rewrite length_map, length_seq.
    rewrite (map_nth f). subst f. cbv beta.
    destruct (_ && _); discriminate.
  - rewrite nth_overflow by now rewrite rolling_mean_length.
    discriminate.
Qed.

(* ------------------------------------------------------------------ *)
(** ** Facts about the added columns *)

Ltac col_len :=
  repeat first
    [ rewrite map2_length | rewrite rolling_mean_length
    | rewrite length_map | rewrite repeat_length | rewrite shift1_length ].

Lemma nth_map_Fin xs i : i < length xs -> nth i (map Fin xs) NaN = Fin (nth i xs 0%Q).
Proof.
  intros H. rewrite (nth_indep _ NaN (Fin 0%Q)) by now rewrite length_map.
  apply (map_nth Fin).
Qed.

Lemma nth_map_of_int xs i :
  i < length xs -> nth i (map of_int xs) NaN = of_int (nth i xs 0%Z).
Proof.
  intros H. rewrite (nth_indep _ NaN (of_int 0%Z)) by now rewrite length_map.
  apply (map_nth of_int).
Qed.

Lemma min_periods_is_window mp :
  In mp [enhanced_min_periods; optimized_min_periods] ->
  forall p, match mp p with Some k => k | None => p end = p.
Proof. intros [<-|[<-|[]]] p; reflexivity. Qed.

(** Every table a calculator returns is [add_columns] of a non-empty
    frame. *)
Lemma returns_add_columns data p20 p50 p200 t :
  computeSignals_returns data p20 p50 p200 t ->
  exists mp df,
    In mp [enhanced_min_periods; optimized_min_periods] /\
    df <> [] /\ t = add_columns mp p20 p50 p200 df.
Proof.
  intros [H|H].
  - unfold calculate_triple_sma_enhanced in H.
    destruct (length data <? p200); [discriminate|]. cbn [raise_if bind] in H.
    destruct (remove_invalid data) as [|b df] eqn:E; [discriminate|].
    cbn [first bind] in H.
    destruct (nrows _ =? 0) eqn:En; [discriminate|]. cbn [raise_if bind] in H.
    destruct (dropna_sma _); [discriminate|]. cbn [first bind] in H.
    injection H as <-.
    exists enhanced_min_periods, (sort_index (b :: df)).
    split; [now left|]. split; [|reflexivity].
    intros E0. apply Nat.eqb_neq in En. apply En.
    unfold nrows. cbn [bars add_columns]. now rewrite E0.
  - unfold calculate_triple_sma_optimized in H.
    destruct data as [|b df]; [discriminate|]. cbn [first bind] in H.
    injection H as <-.
    exists optimized_min_periods, (b :: df).
    split; [right; now left|]. split; [discriminate|reflexivity].
Qed.

Lemma add_columns_lengths mp p20 p50 p200 df :
  let t := add_columns mp p20 p50 p200 df in
  length (sma20 t) = length df /\ length (sma50 t) = length df /\
  length (sma200 t) = length df /\ length (signal t) = length df /\
  length (returns t) = length df /\
  length (strategy_returns t) = length df.
Proof.
  cbv zeta. unfold add_columns, loc_set, mask_and, mask_gt, mask_lt,
    pct_change. cbn [sma20 sma50 sma200 signal returns strategy_returns].
  repeat split; col_len; lia.
Qed.

(** The [signal] cell of row [i], read off the two masks. *)
Lemma add_columns_signal mp p20 p50 p200 df i :
  let t := add_columns mp p20 p50 p200 df in
  i < length df ->
  signal_at t i =
    let c := Fin (close_at t i) in
    if fltb c (sma20_at t i) && fltb (sma20_at t i) (sma50_at t i)
       && fltb (sma50_at t i) (sma200_at t i)
    then (-1)%Z
    else if fgtb c (sma20_at t i) && fgtb (sma20_at t i) (sma50_at t i)
            && fgtb (sma50_at t i) (sma200_at t i)
         then 1%Z else 0%Z.
Proof.
  intros t Hi. unfold signal_at, sma20_at, sma50_at, sma200_at, close_at.
  subst t. unfold add_columns.
  cbn [sma20 sma50 sma200 signal bars]. cbv zeta.
  unfold loc_set, mask_and, mask_gt, mask_lt.
  rewrite (map2_nth _ _ _ _ false 0%Z) by (col_len; lia).
  rewrite (map2_nth _ _ _ _ false 0%Z) by (col_len; lia).
  rewrite nth_repeat.
  rewrite !(map2_nth andb _ _ _ false false) by (col_len; lia).
  rewrite !(map2_nth fltb _ _ _ NaN NaN) by (col_len; lia).
  rewrite !(map2_nth fgtb _ _ _ NaN NaN) by (col_len; lia).
  rewrite nth_map_Fin by (col_len; lia).
  reflexivity.
Qed.

(* ------------------------------------------------------------------ *)
(** ** Comparisons *)

Lemma Qltb_lt x y : Qltb x y = true <-> (x < y)%Q.
Proof.
  unfold Qltb. rewrite negb_true_iff, <- not_true_iff_false, Qle_bool_iff.
  split; [apply Qnot_le_lt | apply Qlt_not_le].
Qed.

Lemma down_mask_iff q a b c :
  finite_or_nan a -> finite_or_nan b -> finite_or_nan c ->
  fltb (Fin q) a && fltb a b && fltb b c = true <->
  exists x y z : Q,
    a = Fin x /\ b = Fin y /\ c = Fin z /\ (q < x)%Q /\ (x < y)%Q /\ (y < z)%Q.
Proof.
  intros Ha Hb Hc. rewrite !andb_true_iff. split.
  - intros [[H1 H2] H3].
    destruct a as [|s|x]; [discriminate | now destruct (Ha s) |].
    destruct b as [|s|y]; [discriminate | now destruct (Hb s) |].
    destruct c as [|s|z]; [discriminate | now destruct (Hc s) |].
    cbn in H1, H2, H3. apply Qltb_lt in H1, H2, H3.
    exists x, y, z. repeat split; assumption.
  - intros (x & y & z & -> & -> & -> & H1 & H2 & H3). cbn.
    repeat split; now apply Qltb_lt.
Qed.

Lemma up_mask_iff q a b c :
  finite_or_nan a -> finite_or_nan b -> finite_or_nan c ->
  fgtb (Fin q) a && fgtb a b && fgtb b c = true <->
  exists x y z : Q,
    a = Fin x /\ b = Fin y /\ c = Fin z /\ (x < q)%Q /\ (y < x)%Q /\ (z < y)%Q.
Proof.
  intros Ha Hb Hc. unfold fgtb. rewrite !andb_true_iff. split.
  - intros [[H1 H2] H3].
    destruct a as [|s|x]; [discriminate | now destruct (Ha s) |].
    destruct b as [|s|y]; [discriminate | now destruct (Hb s) |].
    destruct c as [|s|z]; [discriminate | now destruct (Hc s) |].
    cbn in H1, H2, H3. apply Qltb_lt in H1, H2, H3.
    exists x, y, z. repeat split; assumption.
  - intros (x & y & z & -> & -> & -> & H1 & H2 & H3). cbn.
    repeat split; now apply Qltb_lt.
Qed.

Lemma add_columns_sma_finite_or_nan mp p20 p50 p200 df i :
  let t := add_columns mp p20 p50 p200 df in
  finite_or_nan (sma20_at t i) /\ finite_or_nan (sma50_at t i) /\
  finite_or_nan (sma200_at t i).
Proof.
  cbv zeta. unfold sma20_at, sma50_at, sma200_at, add_columns.
  cbn [sma20 sma50 sma200].
  repeat split; intros s; apply rolling_mean_not_inf.
Qed.

(** The signal of a row of [add_columns], in terms of the two alignments. *)
Lemma add_columns_signal_spec mp p20 p50 p200 df i :
  let t := add_columns mp p20 p50 p200 df in
  i < length df ->
  (signal_at t i = (-1)%Z \/ signal_at t i = 0%Z \/ signal_at t i = 1%Z) /\
  (signal_at t i = 1%Z <-> uptrend_at t i) /\
  (signal_at t i = (-1)%Z <-> downtrend_at t i) /\
  (signal_at t i = 0%Z <-> ~ uptrend_at t i /\ ~ downtrend_at t i).
Proof.
  intros t Hi.
  pose proof (add_columns_signal mp p20 p50 p200 df i Hi) as Hs.
  cbv zeta in Hs. fold t in Hs.
  destruct (add_columns_sma_finite_or_nan mp p20 p50 p200 df i)
    as (F20 & F50 & F200). fold t in F20, F50, F200.
  pose proof (down_mask_iff (close_at t i) _ _ _ F20 F50 F200) as Hd.
  pose proof (up_mask_iff (close_at t i) _ _ _ F20 F50 F200) as Hu.
  assert (Hx : uptrend_at t i -> downtrend_at t i -> False).
  { intros (x & y & z & E1 & _ & _ & L1 & _) (x' & y' & z' & E1' & _ & _ & L1' & _).
    rewrite E1 in E1'. injection E1' as <-.
    exact (Qlt_irrefl _ (Qlt_trans _ _ _ L1 L1')). }
  fold (uptrend_at t i) in Hu. fold (downtrend_at t i) in Hd.
  destruct (fltb (Fin (close_at t i)) (sma20_at t i)
            && fltb (sma20_at t i) (sma50_at t i)
            && fltb (sma50_at t i) (sma200_at t i)) eqn:Ed.
  - assert (D : downtrend_at t i) by now apply Hd.
    rewrite Hs. repeat split; try tauto; try discriminate.
  - assert (ND : ~ downtrend_at t i)
      by (intros D; apply Hd in D; discriminate).
    destruct (fgtb (Fin (close_at t i)) (sma20_at t i)
              && fgtb (sma20_at t i) (sma50_at t i)
              && fgtb (sma50_at t i) (sma200_at t i)) eqn:Eu.
    + assert (U : uptrend_at t i) by now apply Hu.
      rewrite Hs. repeat split; try tauto; try discriminate.
    + assert (NU : ~ uptrend_at t i)
        by (intros U; apply Hu in U; discriminate).
      rewrite Hs. repeat split; try tauto; try discriminate.
Qed.

(* ------------------------------------------------------------------ *)
(** ** The signal of a row *)

(** C1.  On every row of a table returned by either calculator the signal
    is -1, 0 or 1; it is 1 exactly when [close > sma20 > sma50 > sma200]
    holds on the row, -1 exactly when [close < sma20 < sma50 < sma200]
    holds, and 0 in every other case, in particular whenever one of the
    three averages has no value. *)
Theorem signal_alignment data p20 p50 p200 t i :
  computeSignals_returns data p20 p50 p200 t ->
  i < nrows t ->
  (signal_at t i = (-1)%Z \/ signal_at t i = 0%Z \/ signal_at t i = 1%Z) /\
  (signal_at t i = 1%Z <-> uptrend_at t i) /\
  (signal_at t i = (-1)%Z <-> downtrend_at t i) /\
  (signal_at t i = 0%Z <-> ~ uptrend_at t i /\ ~ downtrend_at t i) /\
  (sma20_at t i = NaN \/ sma50_at t i = NaN \/ sma200_at t i = NaN ->
   signal_at t i = 0%Z).
Proof.
  intros Hret Hi.
  destruct (returns_add_columns _ _ _ _ _ Hret) as (mp & df & _ & _ & ->).
  destruct (add_columns_signal_spec mp p20 p50 p200 df i Hi)
    as (H3 & Hu & Hd & H0).
  repeat split; try apply Hu; try apply Hd; try apply H0; try assumption.
  intros Hnan. apply H0. split.
  - intros (x & y & z & E1 & E2 & E3 & _).
    destruct Hnan as [E|[E|E]]; congruence.
  - intros (x & y & z & E1 & E2 & E3 & _).
    destruct Hnan as [E|[E|E]]; congruence.
Qed.

Lemma signal_alignment_witness :
  (signal_at rising5_table 4 = (-1)%Z \/ signal_at rising5_table 4 = 0%Z
   \/ signal_at rising5_table 4 = 1%Z) /\
  (signal_at rising5_table 4 = 1%Z <-> uptrend_at rising5_table 4) /\
  (signal_at rising5_table 4 = (-1)%Z <-> downtrend_at rising5_table 4) /\
  (signal_at rising5_table 4 = 0%Z <->
   ~ uptrend_at rising5_table 4 /\ ~ downtrend_at rising5_table 4) /\
  (sma20_at rising5_table 4 = NaN \/ sma50_at rising5_table 4 = NaN
   \/ sma200_at rising5_table 4 = NaN ->
   signal_at rising5_table 4 = 0%Z).
Proof.
  apply (signal_alignment rising5 2 3 4 rising5_table 4).
  - left. vm_compute. reflexivity.
  - vm_compute. lia.
Defined.

Example rising5_signal : signal rising5_table = [0; 0; 0; 1; 1]%Z.
Proof. reflexivity. Qed.

(* ------------------------------------------------------------------ *)
(** ** Sorting and filtering the frame *)

Lemma insert_bar_perm b l : Permutation (insert_bar b l) (b :: l).
Proof.
  induction l as [|x r IH]; simpl; [reflexivity|].
  destruct (date b <=? date x)%Z; [reflexivity|].
  rewrite IH. apply perm_swap.
Qed.

Lemma sort_index_perm df : Permutation (sort_index df) df.
Proof.
  induction df as [|b df IH]; simpl; [constructor|].
  rewrite insert_bar_perm. now constructor.
Qed.

Lemma sort_index_length df : length (sort_index df) = length df.
Proof. apply Permutation_length, sort_index_perm. Qed.

Lemma insert_bar_sorted b l :
  Sorted date_le l -> Sorted date_le (insert_bar b l).
Proof.
  induction 1 as [|x r Hr IH Hhd]; simpl.
  - repeat constructor.
  - destruct (date b <=? date x)%Z eqn:E.
    + apply Z.leb_le in E. repeat constructor; assumption.
    + apply Z.leb_gt in E. constructor; [assumption|].
      destruct r as [|y r]; simpl.
      * constructor. unfold date_le. lia.
      * destruct (date b <=? date y)%Z; constructor.
        -- unfold date_le. lia.
        -- now inversion Hhd.
Qed.

Lemma sort_index_sorted df : Sorted date_le (sort_index df).
Proof.
  induction df as [|b df IH]; simpl; [constructor|].
  now apply insert_bar_sorted.
Qed.

Lemma remove_invalid_In b data :
  In b (remove_invalid data) <->
  In b data /\ positive_prices b = true /\ high_ge_low b = true /\
  close_in_range b = true.
Proof. unfold remove_invalid. rewrite !filter_In. tauto. Qed.

(** What the enhanced calculator does up to its return, when it returns. *)
Lemma enhanced_returns data p20 p50 p200 t :
  calculate_triple_sma_enhanced data p20 p50 p200 = Ok t ->
  p200 <= length data /\
  t = add_columns enhanced_min_periods p20 p50 p200
        (sort_index (remove_invalid data)) /\
  dropna_sma t <> [].
Proof.
  intros H. unfold calculate_triple_sma_enhanced in H.
  set (t0 := add_columns _ _ _ _ _) in H.
  destruct (length data <? p200) eqn:E; [discriminate|].
  apply Nat.ltb_ge in E. cbv [raise_if bind] in H.
  destruct (first (remove_invalid data)); [|discriminate].
  destruct (nrows t0 =? 0); [discriminate|].
  destruct (dropna_sma t0) eqn:Ed; simpl in H; [discriminate|].
  injection H as <-. repeat split; try assumption.
  fold t0. rewrite Ed. discriminate.
Qed.

Lemma enhanced_close_positive data p20 p50 p200 t i :
  calculate_triple_sma_enhanced data p20 p50 p200 = Ok t ->
  i < nrows t -> (0 < close_at t i)%Q.
Proof.
  intros H Hi. destruct (enhanced_returns _ _ _ _ _ H) as (_ & -> & _).
  unfold nrows, close_at in *. cbn [bars add_columns] in *.
  set (df := sort_index (remove_invalid data)) in *.
  assert (Hin : In (nth i df (flat_bar 0 0)) df) by now apply nth_In.
  rewrite (nth_indep _ 0%Q (close (flat_bar 0 0))) by now rewrite length_map.
  rewrite (map_nth close).
  apply (Permutation_in _ (sort_index_perm _)) in Hin.
  apply remove_invalid_In in Hin. destruct Hin as (_ & Hp & _).
  unfold positive_prices in Hp. rewrite !andb_true_iff in Hp.
  now apply Qltb_lt.
Qed.

(* ------------------------------------------------------------------ *)
(** ** Strategy returns *)

Lemma add_columns_returns mp p20 p50 p200 df i :
  let t := add_columns mp p20 p50 p200 df in
  S i < length df ->
  returns_at t (S i) =
    fsub (fdiv (Fin (close_at t (S i))) (Fin (close_at t i))) (Fin 1).
Proof.
  intros t Hi. unfold returns_at, close_at. subst t.
  cbn [add_columns returns bars]. unfold pct_change.
  rewrite (map2_nth _ _ _ _ NaN NaN) by (col_len; lia).
  rewrite shift1_nth_S by (col_len; lia).
  rewrite !nth_map_Fin by (col_len; lia).
  reflexivity.
Qed.

Lemma add_columns_strategy_0 mp p20 p50 p200 df :
  df <> [] ->
  strategy_returns_at (add_columns mp p20 p50 p200 df) 0 = Fin 0.
Proof.
  intros Hne. destruct df as [|b df]; [congruence|]. reflexivity.
Qed.

Lemma add_columns_strategy_S mp p20 p50 p200 df i :
  let t := add_columns mp p20 p50 p200 df in
  S i < length df ->
  strategy_returns_at t (S i) =
    fillna 0 (fmul (of_int (signal_at t i)) (returns_at t (S i))).
Proof.
  intros t Hi.
  destruct (add_columns_lengths mp p20 p50 p200 df)
    as (_ & _ & _ & Ls & Lr & _). fold t in Ls, Lr.
  unfold strategy_returns_at, signal_at, returns_at. subst t.
  cbn [add_columns strategy_returns signal returns] in *.
  rewrite (nth_indep _ NaN (fillna 0 NaN)) by (col_len; lia).
  rewrite (map_nth (fillna 0)).
  rewrite (map2_nth _ _ _ _ NaN NaN) by (col_len; lia).
  rewrite shift1_nth_S by (col_len; lia).
  rewrite nth_map_of_int by lia.
  reflexivity.
Qed.

(** C2.  In a table returned by either calculator the strategy return of
    the first row is 0, and on every later row it is the previous row's
    signal times the row's return, with 0 in place of an undefined
    product; the row's return is [close / previous close - 1].  In the
    enhanced calculator, whose closes are positive, that return is a
    finite number. *)
Theorem strategy_return_lag data p20 p50 p200 t :
  computeSignals_returns data p20 p50 p200 t ->
  strategy_returns_at t 0 = Fin 0 /\
  (forall i, S i < nrows t ->
     returns_at t (S i) =
       fsub (fdiv (Fin (close_at t (S i))) (Fin (close_at t i))) (Fin 1) /\
     strategy_returns_at t (S i) =
       fillna 0 (fmul (of_int (signal_at t i)) (returns_at t (S i)))) /\
  (calculate_triple_sma_enhanced data p20 p50 p200 = Ok t ->
   forall i, S i < nrows t ->
     returns_at t (S i) = Fin (close_at t (S i) / close_at t i - 1)).
Proof.
  intros Hret.
  destruct (returns_add_columns _ _ _ _ _ Hret) as (mp & df & _ & Hne & E).
  split; [|split].
  - subst t. now apply add_columns_strategy_0.
  - subst t. intros i Hi. split.
    + now apply add_columns_returns.
    + now apply add_columns_strategy_S.
  - intros He i Hi.
    assert (Hpos : (0 < close_at t i)%Q)
      by (apply (enhanced_close_positive _ _ _ _ _ _ He); lia).
    rewrite E. rewrite add_columns_returns by (rewrite E in Hi; exact Hi).
    rewrite <- E. cbn [fdiv fsub].
    destruct (Qeqb (close_at t i) 0) eqn:Ez; [|reflexivity].
    apply Qeq_bool_iff in Ez. rewrite Ez in Hpos.
    now apply Qlt_irrefl in Hpos.
Qed.

Lemma strategy_return_lag_witness :
  strategy_returns_at rising5_table 0 = Fin 0 /\
  (forall i, S i < nrows rising5_table ->
     returns_at rising5_table (S i) =
       fsub (fdiv (Fin (close_at rising5_table (S i)))
                  (Fin (close_at rising5_table i))) (Fin 1) /\
     strategy_returns_at rising5_table (S i) =
       fillna 0 (fmul (of_int (signal_at rising5_table i))
                      (returns_at rising5_table (S i)))) /\
  (calculate_triple_sma_enhanced rising5 2 3 4 = Ok rising5_table ->
   forall i, S i < nrows rising5_table ->
     returns_at rising5_table (S i) =
       Fin (close_at rising5_table (S i) / close_at rising5_table i - 1)).
Proof.
  apply (strategy_return_lag rising5 2 3 4 rising5_table).
  left. vm_compute. reflexivity.
Defined.

Example rising5_strategy_returns :
  strategy_returns rising5_table =
    [Fin 0; Fin (0 # 1); Fin (0 # 2); Fin (0 # 3); Fin (1 # 4)].
Proof. reflexivity. Qed.

(* ------------------------------------------------------------------ *)
(** ** The insufficient-data check *)

Lemma first_err {A} (xs : list A) e : first xs = Err e -> e = IndexError.
Proof. destruct xs; simpl; congruence. Qed.

Lemma optimized_never_insufficient data p20 p50 p200 n p :
  calculate_triple_sma_optimized data p20 p50 p200 <> Err (InsufficientData n p).
Proof.
  unfold calculate_triple_sma_optimized. destruct data; discriminate.
Qed.

Lemma enhanced_insufficient_iff data p20 p50 p200 :
  (exists n p, calculate_triple_sma_enhanced data p20 p50 p200
               = Err (InsufficientData n p))
  <-> length data < p200.
Proof.
  unfold calculate_triple_sma_enhanced.
  set (t0 := add_columns _ _ _ _ _).
  destruct (length data <? p200) eqn:E.
  - apply Nat.ltb_lt in E. split; [intros _; exact E|].
    intros _. eexists _, _. reflexivity.
  - apply Nat.ltb_ge in E. cbv [raise_if bind].
    split; [|lia]. intros (n & p & H). exfalso.
    destruct (first (remove_invalid data)) eqn:F1;
      [|apply first_err in F1; subst; discriminate].
    destruct (nrows t0 =? 0); [discriminate|].
    destruct (first (dropna_sma t0)) eqn:F2;
      [|apply first_err in F2; subst]; discriminate.
Qed.

(** C3, as the calculators have it.  The enhanced calculator raises the
    insufficient-data error exactly when the input has fewer than
    [sma200_period] bars, and then reports both numbers; the optimized
    calculator has no such check and never raises it. *)
Theorem insufficient_data_iff data p20 p50 p200 :
  ((exists n p, calculate_triple_sma_enhanced data p20 p50 p200
                = Err (InsufficientData n p))
   <-> length data < p200) /\
  (length data < p200 <->
   calculate_triple_sma_enhanced data p20 p50 p200
   = Err (InsufficientData (length data) p200)) /\
  (forall n p,
     calculate_triple_sma_optimized data p20 p50 p200
     <> Err (InsufficientData n p)).
Proof.
  split; [apply enhanced_insufficient_iff|]. split.
  - split.
    + intros H. apply Nat.ltb_lt in H.
      unfold calculate_triple_sma_enhanced. now rewrite H.
    + intros H. apply (enhanced_insufficient_iff data p20 p50 p200). eauto.
  - intros n p. apply optimized_never_insufficient.
Qed.

(** C3 as stated fails on the optimized calculator: five bars against a
    200-bar window, and a table comes back. *)
Lemma insufficient_data_counterexample :
  length rising5 < 200 /\
  calculate_triple_sma_optimized rising5 20 50 200
  = Ok (add_columns optimized_min_periods 20 50 200 rising5) /\
  ~ (exists n p, calculate_triple_sma_optimized rising5 20 50 200
                 = Err (InsufficientData n p)).
Proof.
  split; [simpl; lia|]. split; [reflexivity|].
  intros (n & p & H). cbv in H. discriminate H.
Qed.

(* ------------------------------------------------------------------ *)
(** ** Full windows only *)

Lemma rolling_mean_full_window w m xs i :
  match m with Some k => k | None => w end = w ->
  i < length xs ->
  full_window_average w xs i (nth i (rolling_mean w m xs) NaN).
Proof.
  intros Hm Hi. rewrite (rolling_mean_nth w m xs i Hm Hi).
  unfold full_window_average.
  destruct (Nat.leb_spec w (S i)) as [E1|E1];
    destruct (Nat.ltb_spec 0 w) as [E2|E2]; cbn [andb].
  - split; [intros; exfalso; lia|].
    split; [split; [intros _; lia | discriminate]|].
    intros _. split; [|reflexivity].
    rewrite window_at_length by assumption. lia.
  - split; [reflexivity|].
    split; [split; [congruence | intros; exfalso; lia]|congruence].
  - split; [reflexivity|].
    split; [split; [congruence | intros; exfalso; lia]|congruence].
  - split; [reflexivity|].
    split; [split; [congruence | intros; exfalso; lia]|congruence].
Qed.

Lemma add_columns_full_window mp p20 p50 p200 df i :
  In mp [enhanced_min_periods; optimized_min_periods] ->
  let t := add_columns mp p20 p50 p200 df in
  i < length df ->
  full_window_average p20 (map close df) i (sma20_at t i) /\
  full_window_average p50 (map close df) i (sma50_at t i) /\
  full_window_average p200 (map close df) i (sma200_at t i).
Proof.
  intros Hmp t Hi. pose proof (min_periods_is_window mp Hmp) as Hw.
  unfold sma20_at, sma50_at, sma200_at. subst t.
  cbn [add_columns sma20 sma50 sma200].
  split; [|split]; apply rolling_mean_full_window;
    try apply Hw; now rewrite length_map.
Qed.

(** C4.  In a table returned by either calculator, each moving-average
    column has a value on a row exactly when the whole window of closes
    ending at that row exists (and the window is not empty); the value is
    then the mean of exactly that many closes, and the first window-1 rows
    have none. *)
Theorem sma_full_window data p20 p50 p200 t i :
  computeSignals_returns data p20 p50 p200 t ->
  i < nrows t ->
  full_window_average p20 (map close (bars t)) i (sma20_at t i) /\
  full_window_average p50 (map close (bars t)) i (sma50_at t i) /\
  full_window_average p200 (map close (bars t)) i (sma200_at t i).
Proof.
  intros Hret Hi.
  destruct (returns_add_columns _ _ _ _ _ Hret) as (mp & df & Hmp & _ & ->).
  now apply add_columns_full_window.
Qed.

Lemma sma_full_window_witness :
  full_window_average 2 (map close (bars rising5_table)) 1
    (sma20_at rising5_table 1) /\
  full_window_average 3 (map close (bars rising5_table)) 1
    (sma50_at rising5_table 1) /\
  full_window_average 4 (map close (bars rising5_table)) 1
    (sma200_at rising5_table 1).
Proof.
  apply (sma_full_window rising5 2 3 4 rising5_table 1).
  - left. vm_compute. reflexivity.
  - vm_compute. lia.
Defined.

Example rising5_sma :
  sma20 rising5_table = [NaN; Fin (3 # 2); Fin (5 # 2); Fin (7 # 2); Fin (9 # 2)]
  /\ sma50 rising5_table = [NaN; NaN; Fin (6 # 3); Fin (9 # 3); Fin (12 # 3)]
  /\ sma200 rising5_table = [NaN; NaN; NaN; Fin (10 # 4); Fin (14 # 4)].
Proof. repeat split. Qed.

(* ------------------------------------------------------------------ *)
(** ** No signal before the longest window fills *)

(** C9.  In a table returned by either calculator, every row before the
    one on which the [sma200_period]-row window first fills has signal 0. *)
Theorem signal_zero_before_sma200 data p20 p50 p200 t i :
  computeSignals_returns data p20 p50 p200 t ->
  i < nrows t ->
  i < p200 - 1 ->
  signal_at t i = 0%Z.
Proof.
  intros Hret Hi Hp.
  destruct (returns_add_columns _ _ _ _ _ Hret) as (mp & df & Hmp & _ & ->).
  destruct (add_columns_full_window mp p20 p50 p200 df i Hmp Hi)
    as (_ & _ & (H200 & _)).
  destruct (add_columns_signal_spec mp p20 p50 p200 df i Hi)
    as (_ & _ & _ & H0).
  apply H0.
  assert (E : sma200_at (add_columns mp p20 p50 p200 df) i = NaN)
    by (apply H200; lia).
  split; intros (x & y & z & _ & _ & E' & _); congruence.
Qed.

Lemma signal_zero_before_sma200_witness : signal_at rising5_table 2 = 0%Z.
Proof.
  apply (signal_zero_before_sma200 rising5 2 3 4 rising5_table 2).
  - left. vm_compute. reflexivity.
  - vm_compute. lia.
  - simpl. lia.
Defined.

(* ------------------------------------------------------------------ *)
(** ** Row order *)

Lemma sorted_dates_nth l :
  Sorted date_le l ->
  forall i j, i <= j -> j < length l ->
    (nth i (map date l) 0 <= nth j (map date l) 0)%Z.
Proof.
  intros Hs. apply Sorted_StronglySorted in Hs;
    [|intros a b c; unfold date_le; lia].
  induction Hs as [|x r Hr IH Hall]; intros i j Hij Hj; simpl in Hj; [lia|].
  destruct i as [|i], j as [|j]; simpl; try lia.
  - rewrite Forall_forall in Hall.
    rewrite (nth_indep _ 0%Z (date x)) by (rewrite length_map; lia).
    rewrite (map_nth date). apply Hall, nth_In. lia.
  - apply IH; lia.
Qed.

(** C5, as the calculators have it.  The enhanced calculator puts the rows
    it keeps in ascending date order before it computes anything from
    them, so the rows of its table are in ascending date order whatever
    the order of the input, and its averages and signals are computed
    from the closes in that order.  The optimized calculator does not
    sort: on every non-empty input it returns, its rows are the input in
    the order given, and the windows of its averages run over the closes
    in that order. *)
Theorem enhanced_rows_ascending data p20 p50 p200 :
  (forall t,
     calculate_triple_sma_enhanced data p20 p50 p200 = Ok t ->
     (forall i j, i <= j -> j < nrows t -> (date_at t i <= date_at t j)%Z) /\
     Permutation (bars t) (remove_invalid data) /\
     sma20 t = rolling_mean p20 (Some p20) (map close (bars t)) /\
     sma50 t = rolling_mean p50 (Some p50) (map close (bars t)) /\
     sma200 t = rolling_mean p200 (Some p200) (map close (bars t)) /\
     t = add_columns enhanced_min_periods p20 p50 p200 (bars t)) /\
  (forall t,
     calculate_triple_sma_optimized data p20 p50 p200 = Ok t ->
     bars t = data /\
     sma20 t = rolling_mean p20 None (map close data) /\
     sma50 t = rolling_mean p50 None (map close data) /\
     sma200 t = rolling_mean p200 None (map close data) /\
     t = add_columns optimized_min_periods p20 p50 p200 data) /\
  (data <> [] ->
   calculate_triple_sma_optimized data p20 p50 p200
   = Ok (add_columns optimized_min_periods p20 p50 p200 data)).
Proof.
  split; [|split].
  - intros t H. destruct (enhanced_returns _ _ _ _ _ H) as (_ & -> & _).
    cbn [bars sma20 sma50 sma200 add_columns].
    unfold nrows, date_at. cbn [bars add_columns].
    split; [apply sorted_dates_nth, sort_index_sorted|].
    split; [apply sort_index_perm|]. repeat split.
  - intros t H. unfold calculate_triple_sma_optimized in H.
    destruct data as [|b df]; [discriminate|]. cbn [first bind] in H.
    injection H as <-. repeat split.
  - intros Hne. unfold calculate_triple_sma_optimized.
    destruct data as [|b df]; [congruence | reflexivity].
Qed.

Lemma enhanced_rows_ascending_witness :
  let t := add_columns enhanced_min_periods 2 3 4 rising5 in
  (forall i j, i <= j -> j < nrows t -> (date_at t i <= date_at t j)%Z) /\
  Permutation (bars t) (remove_invalid unsorted5) /\
  sma20 t = rolling_mean 2 (Some 2) (map close (bars t)) /\
  sma50 t = rolling_mean 3 (Some 3) (map close (bars t)) /\
  sma200 t = rolling_mean 4 (Some 4) (map close (bars t)) /\
  t = add_columns enhanced_min_periods 2 3 4 (bars t).
Proof.
  apply (proj1 (enhanced_rows_ascending unsorted5 2 3 4)).
  vm_compute. reflexivity.
Defined.

Example unsorted5_both :
  (exists t, calculate_triple_sma_enhanced unsorted5 2 3 4 = Ok t /\
             map date (bars t) = [1; 2; 3; 4; 5]%Z /\
             signal t = [0; 0; 0; 1; 1]%Z) /\
  (exists t, calculate_triple_sma_optimized unsorted5 2 3 4 = Ok t /\
             map date (bars t) = [3; 1; 5; 2; 4]%Z /\
             signal t = [0; 0; 0; 0; 0]%Z).
Proof. split; eexists; repeat split. Qed.

(** C5 as stated fails on the optimized calculator: two bars given latest
    first come back latest first. *)
Lemma rows_ascending_counterexample :
  exists t,
    calculate_triple_sma_optimized unsorted2 20 50 200 = Ok t /\
    map date (bars t) = [2; 1]%Z /\
    (date_at t 1 < date_at t 0)%Z.
Proof.
  eexists. split; [reflexivity|]. split; [reflexivity|].
  vm_compute. reflexivity.
Qed.

(* ------------------------------------------------------------------ *)
(** ** When the enhanced calculator returns *)

Lemma notna_iff v : notna v = true <-> v <> NaN.
Proof. destruct v; simpl; split; congruence. Qed.

(** The rows that keep all three averages. *)
Lemma dropna_sma_In mp p20 p50 p200 df i :
  In mp [enhanced_min_periods; optimized_min_periods] ->
  In i (dropna_sma (add_columns mp p20 p50 p200 df)) <->
  i < length df /\ 0 < p20 <= S i /\ 0 < p50 <= S i /\ 0 < p200 <= S i.
Proof.
  intros Hmp. unfold dropna_sma. rewrite filter_In, in_seq.
  unfold nrows. cbn [bars add_columns].
  split.
  - intros [[_ Hi] Hn]. cbn [Nat.add] in Hi.
    destruct (add_columns_full_window mp p20 p50 p200 df i Hmp Hi)
      as ((_ & A & _) & (_ & B & _) & (_ & C & _)).
    rewrite !andb_true_iff, !notna_iff in Hn.
    unfold sma20_at, sma50_at, sma200_at in A, B, C.
    split; [assumption|]. split; [|split]; tauto.
  - intros (Hi & H20 & H50 & H200).
    destruct (add_columns_full_window mp p20 p50 p200 df i Hmp Hi)
      as ((_ & A & _) & (_ & B & _) & (_ & C & _)).
    unfold sma20_at, sma50_at, sma200_at in A, B, C.
    split; [lia|]. rewrite !andb_true_iff, !notna_iff. tauto.
Qed.

Lemma first_err_nil {A} (xs : list A) e : first xs = Err e -> xs = [].
Proof. destruct xs; simpl; congruence. Qed.

Lemma first_ok_of_In {A} (xs : list A) x :
  In x xs -> exists y, first xs = Ok y.
Proof. destruct xs; simpl; [tauto | eauto]. Qed.

(** With [sma200_period] bars or more, and a kept row on which all three
    windows are full, the enhanced calculator returns. *)
Lemma enhanced_ok data p20 p50 p200 i :
  p200 <= length data ->
  i < length (remove_invalid data) ->
  0 < p20 <= S i -> 0 < p50 <= S i -> 0 < p200 <= S i ->
  calculate_triple_sma_enhanced data p20 p50 p200 =
    Ok (add_columns enhanced_min_periods p20 p50 p200
          (sort_index (remove_invalid data))).
Proof.
  intros Hlen Hi H20 H50 H200. unfold calculate_triple_sma_enhanced.
  set (t0 := add_columns _ _ _ _ _).
  apply Nat.ltb_ge in Hlen. rewrite Hlen. cbv [raise_if bind].
  destruct (first (remove_invalid data)) eqn:F1;
    [|apply first_err_nil in F1; rewrite F1 in Hi; simpl in Hi; lia].
  assert (Hn : nrows t0 = length (remove_invalid data))
    by (unfold nrows, t0; cbn [bars add_columns]; apply sort_index_length).
  destruct (Nat.eqb_spec (nrows t0) 0) as [E0|_]; [lia|].
  assert (Hin : In i (dropna_sma t0)).
  { apply dropna_sma_In; [now left|].
    rewrite sort_index_length. repeat split; lia. }
  destruct (first_ok_of_In _ _ Hin) as (y & ->). reflexivity.
Qed.

(** With [sma200_period] bars or more of which fewer than [sma200_period]
    pass the filters, no row ever gets an [sma200], and the call ends in
    the IndexError of line 505 (no row left) or of line 553 (no row with
    all three averages). *)
Lemma enhanced_too_few_valid data p20 p50 p200 :
  p200 <= length data ->
  length (remove_invalid data) < p200 ->
  calculate_triple_sma_enhanced data p20 p50 p200 = Err IndexError /\
  forall i,
    sma200_at (add_columns enhanced_min_periods p20 p50 p200
                 (sort_index (remove_invalid data))) i = NaN.
Proof.
  intros Hlen Hv. split.
  - unfold calculate_triple_sma_enhanced.
    set (t0 := add_columns _ _ _ _ _).
    apply Nat.ltb_ge in Hlen. rewrite Hlen. cbv [raise_if bind].
    destruct (first (remove_invalid data)) eqn:F1;
      [|now apply first_err in F1; subst].
    destruct (nrows t0 =? 0) eqn:E0.
    + apply Nat.eqb_eq in E0. unfold nrows, t0 in E0.
      cbn [bars add_columns] in E0. rewrite sort_index_length in E0.
      destruct (remove_invalid data); [discriminate F1 | discriminate E0].
    + destruct (dropna_sma t0) as [|i l] eqn:Ed; [reflexivity|].
      assert (Hin : In i (dropna_sma t0)) by (rewrite Ed; now left).
      apply dropna_sma_In in Hin; [|now left].
      rewrite sort_index_length in Hin. lia.
  - intros i. set (df := sort_index (remove_invalid data)).
    destruct (Nat.lt_ge_cases i (length df)) as [Hi|Hi].
    + destruct (add_columns_full_window enhanced_min_periods
                  p20 p50 p200 df i (or_introl eq_refl) Hi)
        as (_ & _ & (H & _)).
      apply H. unfold df in Hi. rewrite sort_index_length in Hi. lia.
    + unfold sma200_at. apply nth_overflow. cbn [sma200 add_columns].
      now rewrite rolling_mean_length, length_map.
Qed.

(* ------------------------------------------------------------------ *)
(** ** Valid series *)

Lemma valid_bar_iff b : valid_bar b = true <-> bar_invariant b.
Proof.
  unfold valid_bar, positive_prices, high_ge_low, close_in_range,
    bar_invariant.
  rewrite !andb_true_iff, !Qltb_lt, !Qle_bool_iff. tauto.
Qed.

Lemma forallb_valid_bar data :
  forallb valid_bar data = true -> Forall bar_invariant data.
Proof.
  rewrite forallb_forall, Forall_forall. intros H b Hb.
  now apply valid_bar_iff, H.
Qed.

Lemma filter_all {A} (f : A -> bool) l :
  (forall x, In x l -> f x = true) -> filter f l = l.
Proof.
  induction l as [|x l IH]; intros H; simpl; [reflexivity|].
  rewrite (H x) by now left. f_equal. apply IH. intros y Hy. apply H.
  now right.
Qed.

Lemma remove_invalid_valid data :
  Forall bar_invariant data -> remove_invalid data = data.
Proof.
  rewrite Forall_forall. intros H. unfold remove_invalid.
  assert (Hv : forall b, In b data ->
                 positive_prices b = true /\ high_ge_low b = true /\
                 close_in_range b = true).
  { intros b Hb. apply H, valid_bar_iff in Hb. unfold valid_bar in Hb.
    rewrite !andb_true_iff in Hb. tauto. }
  rewrite (filter_all positive_prices) by (intros; now apply Hv).
  rewrite (filter_all high_ge_low) by (intros; now apply Hv).
  apply filter_all. intros; now apply Hv.
Qed.

(** C7.  Given at least 200 bars that all satisfy the price invariants,
    the enhanced calculator (with its default periods) returns a table; no
    row is discarded, the table has as many rows as the input, and every
    row of index 200 or more has an [sma200]. *)
Theorem valid_series_table data :
  200 <= length data ->
  Forall bar_invariant data ->
  exists t,
    calculate_triple_sma_enhanced data 20 50 200 = Ok t /\
    discarded data = 0 /\
    nrows t = length data - discarded data /\
    forall i, 200 <= i -> i < nrows t -> exists q, sma200_at t i = Fin q.
Proof.
  intros Hlen Hall.
  pose proof (remove_invalid_valid data Hall) as Hrm.
  eexists. split.
  - apply (enhanced_ok data 20 50 200 199); rewrite ?Hrm; lia.
  - unfold discarded, nrows. cbn [bars add_columns].
    rewrite sort_index_length, Hrm.
    split; [lia|]. split; [lia|]. intros i Hi Hn.
    destruct (add_columns_full_window enhanced_min_periods 20 50 200
                (sort_index data) i (or_introl eq_refl))
      as (_ & _ & (_ & Hdef & Hval));
      [now rewrite sort_index_length|].
    assert (Hne : sma200_at (add_columns enhanced_min_periods 20 50 200
                               (sort_index data)) i <> NaN)
      by (apply Hdef; lia).
    destruct (Hval Hne) as (_ & ->). eauto.
Qed.

Lemma valid_series_table_witness :
  exists t,
    calculate_triple_sma_enhanced (flat_series 250) 20 50 200 = Ok t /\
    discarded (flat_series 250) = 0 /\
    nrows t = length (flat_series 250) - discarded (flat_series 250) /\
    forall i, 200 <= i -> i < nrows t -> exists q, sma200_at t i = Fin q.
Proof.
  apply (valid_series_table (flat_series 250)).
  - vm_compute. lia.
  - apply forallb_valid_bar. vm_compute. reflexivity.
Defined.

(* ------------------------------------------------------------------ *)
(** ** The length check precedes the filters *)



Example one_bad_of_200_rows :
  length one_bad_of_200 = 200 /\ length (remove_invalid one_bad_of_200) = 199.
Proof. split; reflexivity. Qed.

(* ------------------------------------------------------------------ *)
(** ** Memoization *)

Section LruCacheFacts.
Variables K V : Type.
Variable K_eq_dec : forall a b : K, {a = b} + {a <> b}.
Variable user_function : K -> result V.
Variable maxsize : nat.

Lemma cache_get_del k k' (c : cache K V) v :
  cache_get K_eq_dec k' (cache_del K_eq_dec k c) = Some v ->
  cache_get K_eq_dec k' c = Some v.
Proof.
  induction c as [|[k0 v0] r IH]; simpl; [congruence|].
  destruct (K_eq_dec k k0) as [->|Hk].
  - intros H. destruct (K_eq_dec k' k0) as [->|]; [|auto].
    exfalso. clear IH. induction r as [|[k1 v1] r IHr]; simpl in H;
      [discriminate|].
    destruct (K_eq_dec k0 k1); [auto|].
    simpl in H. destruct (K_eq_dec k0 k1); [contradiction | auto].
  - simpl. destruct (K_eq_dec k' k0); auto.
Qed.

Lemma cache_get_firstn n k (c : cache K V) v :
  cache_get K_eq_dec k (firstn n c) = Some v ->
  cache_get K_eq_dec k c = Some v.
Proof.
  revert n; induction c as [|[k0 v0] r IH]; intros [|n]; simpl;
    try congruence.
  destruct (K_eq_dec k k0); [auto | apply IH].
Qed.

Lemma lru_call_sound c k :
  cache_sound K_eq_dec user_function c ->
  cache_sound K_eq_dec user_function
    (snd (lru_call K_eq_dec user_function maxsize c k)).
Proof.
  intros Hc. unfold lru_call.
  destruct (cache_get K_eq_dec k c) as [v|] eqn:Eg; cbn [snd].
  - intros k' v'. simpl. destruct (K_eq_dec k' k) as [->|_].
    + intros [= <-]. now apply Hc.
    + intros H. apply cache_get_del in H. now apply Hc.
  - destruct (user_function k) as [v|e] eqn:Ef; cbn [snd]; [|assumption].
    intros k' v' H. apply cache_get_firstn in H. simpl in H.
    destruct (K_eq_dec k' k) as [->|_]; [congruence | now apply Hc].
Qed.

Lemma lru_calls_sound c ks :
  cache_sound K_eq_dec user_function c ->
  cache_sound K_eq_dec user_function
    (lru_calls K_eq_dec user_function maxsize c ks).
Proof.
  revert c; induction ks as [|k ks IH]; intros c Hc; simpl; [assumption|].
  apply IH, lru_call_sound, Hc.
Qed.

Lemma lru_call_result c k :
  cache_sound K_eq_dec user_function c ->
  fst (lru_call K_eq_dec user_function maxsize c k) = user_function k.
Proof.
  intros Hc. unfold lru_call.
  destruct (cache_get K_eq_dec k c) as [v|] eqn:Eg; cbn [fst].
  - symmetry. now apply Hc.
  - destruct (user_function k); reflexivity.
Qed.

(** Whatever calls came before, a call through the wrapper gives what
    the function gives, and so does the same call made again. *)
Lemma lru_transparent history k :
  let c := lru_calls K_eq_dec user_function maxsize [] history in
  let r1 := lru_call K_eq_dec user_function maxsize c k in
  let r2 := lru_call K_eq_dec user_function maxsize (snd r1) k in
  fst r1 = user_function k /\ fst r2 = fst r1.
Proof.
  intros c r1 r2.
  assert (Hc : cache_sound K_eq_dec user_function c).
  { apply lru_calls_sound. intros k' v'. simpl. discriminate. }
  assert (H1 : fst r1 = user_function k) by now apply lru_call_result.
  split; [exact H1|]. rewrite H1.
  apply lru_call_result, lru_call_sound, Hc.
Qed.
End LruCacheFacts.


Example cached_enhanced_hit :
  let a := mkArgs rising5 (Some 2) (Some 3) (Some 4) in
  let r1 := cached_enhanced [] a in
  let r2 := cached_enhanced (snd r1) a in
  fst r1 = Ok rising5_table /\ fst r2 = Ok rising5_table /\
  length (snd r2) = 1.
Proof. vm_compute. repeat split. Qed.

(* ------------------------------------------------------------------ *)
(** ** The reachability probe *)

Lemma prefix_append (s t : string) : String.prefix s (s ++ t) = true.
Proof.
  induction s as [|a s IH]; simpl.
  - destruct t; reflexivity.
  - destruct (ascii_dec a a); [assumption | congruence].
Qed.

(** C8.  Whatever the attempt does (connects, fails to resolve the name,
    times out, or fails in any other way), one call returns a pair and
    leaves the history exactly one entry longer, the new entry being the
    last and carrying the host and port of the call.  A call that
    connected returns ok = true and logs ['success']; any failure returns
    ok = false, a message that starts with the text of its failure kind,
    and logs the status of that kind. *)
Theorem reachability_logged format_3f now self h p timeout outcome :
  let r := test_network_connection format_3f now self h p timeout outcome in
  let ok := fst (fst r) in
  let message := snd (fst r) in
  let self' := snd r in
  length (connection_history self')
  = S (length (connection_history self)) /\
  exists entry,
    connection_history self' = connection_history self ++ [entry] /\
    host entry = h /\ port entry = p /\ timestamp entry = now /\
    ((ok = true /\ kind_of outcome = None /\ status entry = "success"%string)
     \/
     (ok = false /\
      exists k, kind_of outcome = Some k /\
                String.prefix (kind_text k) message = true /\
                status entry = kind_status k)).
Proof.
  destruct outcome as [ct|e| |e]; cbv zeta;
    cbn [test_network_connection fst snd history_append connection_history];
    (split; [rewrite length_app; simpl; lia|]);
    eexists; (split; [reflexivity|]);
    cbn [host port timestamp status]; repeat split.
  - left. repeat split.
  - right. split; [reflexivity|]. exists name_resolution_failure.
    repeat split. apply prefix_append.
  - right. split; [reflexivity|]. exists connection_timeout.
    repeat split. apply prefix_append.
  - right. split; [reflexivity|]. exists other_failure.
    repeat split. apply prefix_append.
Qed.

Example refused_connection :
  test_network_connection (fun _ => "0.000"%string) 1700000000
    (mkManager None None None []) "10.255.255.1" 1 5
    (raised_other "[Errno 111] Connection refused")
  = ((false, "Connection failed: [Errno 111] Connection refused"%string),
     mkManager None None None
       [mkAttempt 1700000000 "10.255.255.1" 1 "error" None
          (Some "[Errno 111] Connection refused"%string)]).
Proof. reflexivity. Qed.

Example timed_out_connection :
  fst (test_network_connection (fun _ => "0.000"%string) 1700000000
         (mkManager None None None []) "10.255.255.1" 1 5 raised_timeout)
  = (false, "Connection timeout after 5s"%string).
Proof. reflexivity. Qed.

(* ================================================================== *)
(** * Further properties *)

(* ------------------------------------------------------------------ *)
(** ** What the wrapper stores *)

Lemma historicalData_accepts self reqId bar :
  valid_bar bar = true ->
  EnhancedIBapi.data (EnhancedIBapi.historicalData self reqId bar)
  = EnhancedIBapi.data self ++ [bar] /\
  EnhancedIBapi.data_quality_issues
    (EnhancedIBapi.historicalData self reqId bar)
  = EnhancedIBapi.data_quality_issues self.
Proof.
  unfold valid_bar, positive_prices, high_ge_low, close_in_range,
    EnhancedIBapi.historicalData, Qltb.
  destruct (Qle_bool (open bar) 0), (Qle_bool (high bar) 0),
    (Qle_bool (low bar) 0), (Qle_bool (close bar) 0),
    (Qle_bool (low bar) (high bar)), (Qle_bool (close bar) (high bar)),
    (Qle_bool (low bar) (close bar)); cbn; intros H;
    try discriminate H; split; reflexivity.
Qed.

Lemma historicalData_rejects self reqId bar :
  valid_bar bar = false ->
  EnhancedIBapi.data (EnhancedIBapi.historicalData self reqId bar)
  = EnhancedIBapi.data self /\
  length (EnhancedIBapi.data_quality_issues
            (EnhancedIBapi.historicalData self reqId bar))
  = S (length (EnhancedIBapi.data_quality_issues self)).
Proof.
  unfold valid_bar, positive_prices, high_ge_low, close_in_range,
    EnhancedIBapi.historicalData, Qltb.
  destruct (Qle_bool (open bar) 0), (Qle_bool (high bar) 0),
    (Qle_bool (low bar) 0), (Qle_bool (close bar) 0),
    (Qle_bool (low bar) (high bar)), (Qle_bool (close bar) (high bar)),
    (Qle_bool (low bar) (close bar)); cbn; intros H;
    try discriminate H; split; try reflexivity;
    rewrite length_app; simpl; lia.
Qed.


(* ------------------------------------------------------------------ *)
(** ** Invariants of the wrapper *)

Lemma historicalData_keeps_valid self reqId bar :
  Forall bar_invariant (EnhancedIBapi.data self) ->
  Forall bar_invariant
    (EnhancedIBapi.data (EnhancedIBapi.historicalData self reqId bar)).
Proof.
  intros H. destruct (valid_bar bar) eqn:Ev.
  - destruct (historicalData_accepts self reqId bar Ev) as (-> & _).
    apply Forall_app. split; [assumption|].
    constructor; [now apply valid_bar_iff | constructor].
  - now destruct (historicalData_rejects self reqId bar Ev) as (-> & _).
Qed.

Lemma error_data self reqId errorCode errorString :
  EnhancedIBapi.data (EnhancedIBapi.error self reqId errorCode errorString)
  = EnhancedIBapi.data self.
Proof.
  unfold EnhancedIBapi.error.
  repeat match goal with |- context [if ?c then _ else _] => destruct c end;
    reflexivity.
Qed.

Lemma step_keeps_valid st e :
  Forall bar_invariant (EnhancedIBapi.data (fst st)) ->
  Forall bar_invariant (EnhancedIBapi.data (fst (EnhancedIBapi.step st e))).
Proof.
  destruct st as [self mgr]. cbn [fst]. intros H.
  destruct e; cbn [EnhancedIBapi.step fst]; try assumption.
  - now apply historicalData_keeps_valid.
  - now rewrite error_data.
  - constructor.
Qed.

Lemma run_keeps_valid st es :
  Forall bar_invariant (EnhancedIBapi.data (fst st)) ->
  Forall bar_invariant (EnhancedIBapi.data (fst (EnhancedIBapi.run st es))).
Proof.
  revert st; induction es as [|e es IH]; intros st H; [assumption|].
  apply IH, step_keeps_valid, H.
Qed.




Example mixed_answer_counts :
  let self := EnhancedIBapi.receive EnhancedIBapi.init 1 mixed_answer in
  length mixed_answer = 253 /\
  length (EnhancedIBapi.data self) = 250 /\
  EnhancedIBapi.data_quality_issues self
  = [EnhancedIBapi.Invalid_price_data_on 1000;
     EnhancedIBapi.High_lt_Low_on 1001;
     EnhancedIBapi.Close_outside_range_on 1002].
Proof. vm_compute. repeat split. Qed.

(* ------------------------------------------------------------------ *)
(** ** The market-data dictionary *)

Lemma dict_set_keys k v d :
  map fst (dict_set k v d)
  = if Z_mem k (map fst d) then map fst d else map fst d ++ [k].
Proof.
  induction d as [|[k' v'] r IH]; [reflexivity|].
  cbn [dict_set map fst Z_mem existsb] in *.
  destruct (k =? k')%Z eqn:E.
  - apply Z.eqb_eq in E. subst. reflexivity.
  - cbn [orb map fst]. rewrite IH.
    unfold Z_mem. now destruct (existsb (Z.eqb k) (map fst r)).
Qed.

Lemma Z_mem_In x l : Z_mem x l = true <-> In x l.
Proof.
  unfold Z_mem. rewrite existsb_exists. split.
  - intros (y & Hy & E). apply Z.eqb_eq in E. now subst.
  - intros H. exists x. split; [assumption | apply Z.eqb_refl].
Qed.

Lemma error_farms_ok self reqId errorCode errorString :
  farms_ok self ->
  farms_ok (EnhancedIBapi.error self reqId errorCode errorString).
Proof.
  intros [Hnd Hin]. unfold EnhancedIBapi.error, farms_ok.
  change [2104; 2106; 2158]%Z with farm_codes.
  destruct (Z_mem errorCode farm_codes) eqn:Em.
  - cbn [EnhancedIBapi.set_market_data_status EnhancedIBapi.set_last_error
           EnhancedIBapi.market_data_status].
    rewrite dict_set_keys.
    destruct (Z_mem errorCode
                (map fst (EnhancedIBapi.market_data_status self))) eqn:Ek.
    + split; assumption.
    + split.
      * apply NoDup_app; [assumption | repeat constructor; intros [] |].
        intros x Hx [<-|[]]. apply Z_mem_In in Hx. congruence.
      * apply incl_app; [assumption|].
        intros x [<-|[]]. now apply Z_mem_In.
  - repeat match goal with |- context [if ?c then _ else _] => destruct c end;
      split; assumption.
Qed.

Lemma step_farms_ok st e :
  farms_ok (fst st) -> farms_ok (fst (EnhancedIBapi.step st e)).
Proof.
  destruct st as [self mgr]. cbn [fst]. intros H.
  destruct e; cbn [EnhancedIBapi.step fst]; try exact H.
  - unfold EnhancedIBapi.historicalData, EnhancedIBapi.add_issue.
    repeat match goal with |- context [if ?c then _ else _] => destruct c end;
      exact H.
  - now apply error_farms_ok.
Qed.

Lemma run_farms_ok st es :
  farms_ok (fst st) -> farms_ok (fst (EnhancedIBapi.run st es)).
Proof.
  revert st; induction es as [|e es IH]; intros st H; [assumption|].
  apply IH, step_farms_ok, H.
Qed.

(** X4.  Whatever events a fresh wrapper has seen, its market-data
    dictionary has no key twice and only keys among 2104, 2106 and 2158,
    so the connection summary never reports more than three market-data
    farms. *)
Theorem market_data_farms_bounded (es : list EnhancedIBapi.event) :
  let self := fst (EnhancedIBapi.run fresh_process es) in
  NoDup (map fst (EnhancedIBapi.market_data_status self)) /\
  incl (map fst (EnhancedIBapi.market_data_status self)) [2104; 2106; 2158]%Z /\
  EnhancedIBapi.market_data_farms (EnhancedIBapi.get_connection_summary self)
  <= 3.
Proof.
  cbv zeta.
  assert (H : farms_ok (fst (EnhancedIBapi.run fresh_process es))).
  { apply run_farms_ok. split; [constructor | intros x []]. }
  destruct H as [Hnd Hin]. split; [assumption|]. split; [assumption|].
  cbn [EnhancedIBapi.get_connection_summary EnhancedIBapi.market_data_farms].
  rewrite <- (length_map fst).
  apply (NoDup_incl_length Hnd Hin).
Qed.

Example farm_messages :
  let es := [EnhancedIBapi.Error (-1) 2104 "Market data farm connection is OK:usfarm";
             EnhancedIBapi.Error (-1) 2106 "HMDS data farm connection is OK:ushmds";
             EnhancedIBapi.Error (-1) 2104 "Market data farm connection is OK:usfuture";
             EnhancedIBapi.Error (-1) 502 "Couldn't connect to TWS"]%string in
  let self := fst (EnhancedIBapi.run fresh_process es) in
  EnhancedIBapi.market_data_status self
  = [(2104, "Market data farm connection is OK:usfuture");
     (2106, "HMDS data farm connection is OK:ushmds")]%Z%string /\
  EnhancedIBapi.connection_status self = "error"%string /\
  EnhancedIBapi.last_error self = Some (502%Z, "Couldn't connect to TWS"%string).
Proof. vm_compute. repeat split. Qed.

(* ------------------------------------------------------------------ *)
(** ** The position column *)

Lemma add_columns_position_0 mp p20 p50 p200 df :
  df <> [] -> position_at (add_columns mp p20 p50 p200 df) 0 = NaN.
Proof.
  intros Hne. destruct df as [|b df]; [congruence|]. reflexivity.
Qed.

Lemma add_columns_position_S mp p20 p50 p200 df i :
  let t := add_columns mp p20 p50 p200 df in
  S i < length df ->
  position_at t (S i)
  = Fin (inject_Z (signal_at t (S i)) - inject_Z (signal_at t i)).
Proof.
  intros t Hi.
  destruct (add_columns_lengths mp p20 p50 p200 df)
    as (_ & _ & _ & Ls & _). fold t in Ls.
  unfold position_at, signal_at. subst t.
  cbn [add_columns position signal] in *. unfold diff.
  rewrite (map2_nth _ _ _ _ NaN NaN) by (col_len; lia).
  rewrite shift1_nth_S by (col_len; lia).
  rewrite !nth_map_of_int by lia.
  reflexivity.
Qed.

Lemma Zlt_inject_Z a b : (inject_Z a < inject_Z b)%Q <-> (a < b)%Z.
Proof. unfold Qlt, inject_Z. simpl. now rewrite !Z.mul_1_r. Qed.

(** X5.  In a table returned by either calculator the position of the
    first row is undefined and the position of every later row is that
    row's signal minus the previous row's; it is positive (a buy marker)
    exactly when the signal rose and negative (a sell marker) exactly when
    it fell. *)
Theorem position_is_signal_change data p20 p50 p200 t :
  computeSignals_returns data p20 p50 p200 t ->
  position_at t 0 = NaN /\
  forall i, S i < nrows t ->
    position_at t (S i)
    = Fin (inject_Z (signal_at t (S i)) - inject_Z (signal_at t i)) /\
    (fgtb (position_at t (S i)) (Fin 0) = true
     <-> (signal_at t i < signal_at t (S i))%Z) /\
    (fltb (position_at t (S i)) (Fin 0) = true
     <-> (signal_at t (S i) < signal_at t i)%Z).
Proof.
  intros Hret.
  destruct (returns_add_columns _ _ _ _ _ Hret) as (mp & df & _ & Hne & ->).
  split; [now apply add_columns_position_0|].
  intros i Hi. rewrite add_columns_position_S by exact Hi.
  split; [reflexivity|]. unfold fgtb. cbn [fltb]. rewrite !Qltb_lt.
  rewrite <- !Zlt_inject_Z.
  set (a := inject_Z (signal_at _ (S i))). set (b := inject_Z (signal_at _ i)).
  split.
  - unfold Qminus. symmetry. apply Qlt_minus_iff.
  - split; intros H.
    + apply (Qplus_lt_l _ _ (- b)).
      setoid_replace (b + - b)%Q with 0%Q by ring. exact H.
    + apply (proj2 (Qplus_lt_l a b (- b))) in H.
      setoid_replace (b + - b)%Q with 0%Q in H by ring. exact H.
Qed.

Lemma position_is_signal_change_witness :
  position_at rising5_table 0 = NaN /\
  forall i, S i < nrows rising5_table ->
    position_at rising5_table (S i)
    = Fin (inject_Z (signal_at rising5_table (S i))
           - inject_Z (signal_at rising5_table i)) /\
    (fgtb (position_at rising5_table (S i)) (Fin 0) = true
     <-> (signal_at rising5_table i < signal_at rising5_table (S i))%Z) /\
    (fltb (position_at rising5_table (S i)) (Fin 0) = true
     <-> (signal_at rising5_table (S i) < signal_at rising5_table i)%Z).
Proof.
  apply (position_is_signal_change rising5 2 3 4 rising5_table).
  left. vm_compute. reflexivity.
Defined.

Example rising5_position :
  position rising5_table = [NaN; Fin 0; Fin 0; Fin 1; Fin 0].
Proof. reflexivity. Qed.

(* ------------------------------------------------------------------ *)
(** ** Counting trades *)

Lemma add_columns_position_length mp p20 p50 p200 df :
  length (position (add_columns mp p20 p50 p200 df)) = length df.
Proof.
  destruct (add_columns_lengths mp p20 p50 p200 df) as (_ & _ & _ & Ls & _).
  cbn [add_columns position signal] in *. unfold diff. col_len.
  rewrite Ls. lia.
Qed.

Lemma add_columns_position_shape mp p20 p50 p200 df :
  df <> [] ->
  exists l, position (add_columns mp p20 p50 p200 df) = NaN :: l /\
            Forall is_Fin l.
Proof.
  intros Hne.
  pose proof (add_columns_position_length mp p20 p50 p200 df) as Hlen.
  pose proof (add_columns_position_0 mp p20 p50 p200 df Hne) as H0.
  pose proof (add_columns_position_S mp p20 p50 p200 df) as HS.
  cbv zeta in HS. unfold position_at in H0, HS.
  destruct (position (add_columns mp p20 p50 p200 df)) as [|p0 l].
  - destruct df; [congruence | discriminate Hlen].
  - cbn [nth] in H0. subst p0. exists l. split; [reflexivity|].
    apply Forall_nth. intros i d Hi.
    rewrite (nth_indep _ d NaN) by assumption.
    cbn [length] in Hlen.
    specialize (HS i ltac:(lia)). cbn [nth] in HS. rewrite HS.
    eexists. reflexivity.
Qed.

Lemma sign_cases q :
  (Qeq_bool q 0 = true /\ Qltb 0 q = false /\ Qltb q 0 = false) \/
  (Qeq_bool q 0 = false /\ Qltb 0 q = true /\ Qltb q 0 = false) \/
  (Qeq_bool q 0 = false /\ Qltb 0 q = false /\ Qltb q 0 = true).
Proof.
  assert (Hf : forall x y, ~ (x < y)%Q -> Qltb x y = false).
  { intros x y H. destruct (Qltb x y) eqn:E; [|reflexivity].
    apply Qltb_lt in E. contradiction. }
  assert (Hn : ~ (q == 0)%Q -> Qeq_bool q 0 = false).
  { intros H. destruct (Qeq_bool q 0) eqn:E; [|reflexivity].
    apply Qeq_bool_iff in E. contradiction. }
  destruct (Q_dec q 0) as [[Hlt|Hgt]|Heq].
  - right; right. repeat split.
    + apply Hn. intros E. rewrite E in Hlt. now apply Qlt_irrefl in Hlt.
    + apply Hf. intros H. exact (Qlt_irrefl _ (Qlt_trans _ _ _ H Hlt)).
    + now apply Qltb_lt.
  - right; left. repeat split.
    + apply Hn. intros E. rewrite E in Hgt. now apply Qlt_irrefl in Hgt.
    + now apply Qltb_lt.
    + apply Hf. intros H. exact (Qlt_irrefl _ (Qlt_trans _ _ _ H Hgt)).
  - left. repeat split.
    + now apply Qeq_bool_iff.
    + apply Hf. rewrite Heq. apply Qlt_irrefl.
    + apply Hf. rewrite Heq. apply Qlt_irrefl.
Qed.

Lemma count_changes l :
  Forall is_Fin l ->
  length (filter (fun p => fneb p (Fin 0)) l)
  = length (filter (fun p => fgtb p (Fin 0)) l)
    + length (filter (fun p => fltb p (Fin 0)) l).
Proof.
  induction 1 as [|p l [q ->] _ IH]; [reflexivity|].
  cbn [filter].
  change (fneb (Fin q) (Fin 0)) with (negb (Qeq_bool q 0)).
  change (fgtb (Fin q) (Fin 0)) with (Qltb 0 q).
  change (fltb (Fin q) (Fin 0)) with (Qltb q 0).
  destruct (sign_cases q) as [(-> & -> & ->)|[(-> & -> & ->)|(-> & -> & ->)]];
    cbn [negb length]; lia.
Qed.

(** X6.  On a table returned by either calculator the count of rows with
    [position != 0] is one more than the buy and sell markers together:
    the undefined position of the first row is different from 0, and on
    every other row a position different from 0 is either positive or
    negative.  That count is therefore never 0. *)
Theorem trades_count_first_row data p20 p50 p200 t :
  computeSignals_returns data p20 p50 p200 t ->
  total_trades t = buy_signals t + sell_signals t + 1 /\
  0 < total_trades t.
Proof.
  intros Hret.
  destruct (returns_add_columns _ _ _ _ _ Hret) as (mp & df & _ & Hne & ->).
  destruct (add_columns_position_shape mp p20 p50 p200 df Hne)
    as (l & E & Hl).
  unfold total_trades, buy_signals, sell_signals. rewrite E.
  cbn [filter].
  change (fneb NaN (Fin 0)) with true.
  change (fgtb NaN (Fin 0)) with false.
  change (fltb NaN (Fin 0)) with false.
  cbn [length]. rewrite (count_changes l Hl). lia.
Qed.

Lemma trades_count_first_row_witness :
  total_trades rising5_table
  = buy_signals rising5_table + sell_signals rising5_table + 1 /\
  0 < total_trades rising5_table.
Proof.
  apply (trades_count_first_row rising5 2 3 4 rising5_table).
  left. vm_compute. reflexivity.
Defined.

Example rising5_trades :
  total_trades rising5_table = 2 /\ buy_signals rising5_table = 1 /\
  sell_signals rising5_table = 0.
Proof. repeat split. Qed.

(* ------------------------------------------------------------------ *)
(** ** The report on the latest row *)

Lemma add_columns_alignment mp p20 p50 p200 df i :
  let t := add_columns mp p20 p50 p200 df in
  uptrend_at t i \/ downtrend_at t i ->
  (fgtb (sma20_at t i) (sma50_at t i) && fgtb (sma50_at t i) (sma200_at t i))
  || (fltb (sma20_at t i) (sma50_at t i) && fltb (sma50_at t i) (sma200_at t i))
  = true.
Proof.
  intros t [(x & y & z & -> & -> & -> & _ & H1 & H2)
           |(x & y & z & -> & -> & -> & _ & H1 & H2)].
  - unfold fgtb. cbn [fltb]. apply Qltb_lt in H1, H2. now rewrite H1, H2.
  - cbn [fltb]. apply Qltb_lt in H1, H2. rewrite H1, H2.
    now rewrite orb_true_r.
Qed.

(** X7.  On a table returned by either calculator the report on the
    latest row is always produced.  It says STRONG BUY exactly when the
    latest row is in strict uptrend alignment, STRONG SELL exactly when it
    is in strict downtrend alignment; either of them always comes with
    "Aligned" and "Strong", so "Mixed" or "Weak" is only ever shown with
    NEUTRAL. *)
Theorem latest_signal_report data p20 p50 p200 t :
  computeSignals_returns data p20 p50 p200 t ->
  exists a,
    analyze_current_signal t = Ok a /\
    (signal_text a = STRONG_BUY <-> uptrend_at t (nrows t - 1)) /\
    (signal_text a = STRONG_SELL <-> downtrend_at t (nrows t - 1)) /\
    (signal_text a = STRONG_BUY \/ signal_text a = STRONG_SELL ->
     sma_alignment a = "Aligned"%string /\ trend_strength a = "Strong"%string)
    /\
    (trend_strength a = "Weak"%string -> signal_text a = NEUTRAL).
Proof.
  intros Hret.
  destruct (returns_add_columns _ _ _ _ _ Hret) as (mp & df & _ & Hne & ->).
  set (t := add_columns mp p20 p50 p200 df).
  assert (Hn : nrows t = length df) by reflexivity.
  assert (Hpos : 0 < length df) by (destruct df; [congruence | simpl; lia]).
  assert (Hlast : nrows t - 1 < length df) by lia.
  destruct (add_columns_signal_spec mp p20 p50 p200 df _ Hlast)
    as (H3 & Hu & Hd & H0). fold t in H3, Hu, Hd, H0.
  pose proof (add_columns_alignment mp p20 p50 p200 df (nrows t - 1)) as Ha.
  cbv zeta in Ha. fold t in Ha.
  unfold analyze_current_signal.
  destruct (Nat.eqb_spec (nrows t) 0) as [E|_]; [lia|].
  cbn [raise_if bind].
  assert (Hfin : forall a (C D : Prop),
            (signal_text a = STRONG_BUY <-> signal_at t (nrows t - 1) = 1%Z) ->
            (signal_text a = STRONG_SELL
             <-> signal_at t (nrows t - 1) = (-1)%Z) ->
            C -> D ->
            (signal_text a = STRONG_BUY <-> uptrend_at t (nrows t - 1)) /\
            (signal_text a = STRONG_SELL <-> downtrend_at t (nrows t - 1)) /\
            C /\ D)
    by (intros a C D A B HC HD; rewrite A, B; tauto).
  destruct (Z.eqb_spec (signal_at t (nrows t - 1)) 1) as [E1|N1].
  - assert (U : uptrend_at t (nrows t - 1)) by now apply Hu.
    rewrite (Ha (or_introl U)). eexists. split; [reflexivity|].
    apply Hfin; cbn [signal_text sma_alignment trend_strength].
    + split; intros H; [assumption | reflexivity].
    + split; intros H; [discriminate H | lia].
    + intros _. split; reflexivity.
    + intros H. discriminate H.
  - destruct (Z.eqb_spec (signal_at t (nrows t - 1)) (-1)) as [E2|N2].
    + assert (D : downtrend_at t (nrows t - 1)) by now apply Hd.
      rewrite (Ha (or_intror D)). eexists. split; [reflexivity|].
      apply Hfin; cbn [signal_text sma_alignment trend_strength].
      * split; intros H; [discriminate H | lia].
      * split; intros H; [assumption | reflexivity].
      * intros _. split; reflexivity.
      * intros H. discriminate H.
    + eexists. split; [reflexivity|].
      apply Hfin; cbn [signal_text sma_alignment trend_strength].
      * split; intros H; [discriminate H | lia].
      * split; intros H; [discriminate H | lia].
      * intros [H|H]; discriminate H.
      * reflexivity.
Qed.

Lemma latest_signal_report_witness :
  exists a,
    analyze_current_signal rising5_table = Ok a /\
    (signal_text a = STRONG_BUY
     <-> uptrend_at rising5_table (nrows rising5_table - 1)) /\
    (signal_text a = STRONG_SELL
     <-> downtrend_at rising5_table (nrows rising5_table - 1)) /\
    (signal_text a = STRONG_BUY \/ signal_text a = STRONG_SELL ->
     sma_alignment a = "Aligned"%string /\ trend_strength a = "Strong"%string)
    /\
    (trend_strength a = "Weak"%string -> signal_text a = NEUTRAL).
Proof.
  apply (latest_signal_report rising5 2 3 4 rising5_table).
  left. vm_compute. reflexivity.
Defined.

Example rising5_report :
  analyze_current_signal rising5_table
  = Ok (mkAnalysis STRONG_BUY "🟢" "Aligned" "Strong").
Proof. reflexivity. Qed.

(* ------------------------------------------------------------------ *)
(** ** Connection statistics *)

Lemma probe_history format_3f self a :
  exists e,
    connection_history (snd (probe format_3f self a))
    = connection_history self ++ [e] /\
    is_success e = did_connect (try_result a) /\
    map (fun c => match latency c with Some l => l | None => 0%Q end)
        (filter is_success [e])
    = connection_time_of (try_result a).
Proof.
  unfold probe. destruct (try_result a) as [ct|e| |e];
    cbn [test_network_connection snd history_append connection_history];
    eexists; (split; [reflexivity|]); split; reflexivity.
Qed.

(** X8.  After any sequence of probe calls the statistics count them all:
    the number of attempts grows by the number of calls, the number of
    successes by the number of calls that connected, and the latencies
    that are averaged are, in order, the connection times of exactly those
    calls.  The report is "No connection attempts recorded" only when no
    call was ever made. *)
Theorem stats_after_probes format_1f format_3f self attempts :
  let self' := probes format_3f self attempts in
  total_attempts self' = total_attempts self + length attempts /\
  length (successful_attempts self')
  = length (successful_attempts self)
    + length (filter (fun a => did_connect (try_result a)) attempts) /\
  success_latencies self'
  = success_latencies self
    ++ flat_map (fun a => connection_time_of (try_result a)) attempts /\
  (get_connection_stats format_1f format_3f self'
   = "No connection attempts recorded"%string
   <-> connection_history self = [] /\ attempts = []).
Proof.
  cbv zeta. revert self.
  induction attempts as [|a attempts IH]; intros self.
  - cbn [probes fold_left length filter flat_map].
    rewrite app_nil_r, !Nat.add_0_r.
    split; [reflexivity|]. split; [reflexivity|]. split; [reflexivity|].
    unfold get_connection_stats.
    destruct (connection_history self) as [|c l].
    + split; [intros _; split; reflexivity | reflexivity].
    + split; [intros E|intros [E _]; discriminate E].
      exfalso. destruct (0 <? _); discriminate E.
  - change (probes format_3f self (a :: attempts))
      with (probes format_3f (snd (probe format_3f self a)) attempts).
    destruct (IH (snd (probe format_3f self a))) as (Ht & Hs & Hl & Hn).
    destruct (probe_history format_3f self a) as (e & He & Hse & Hle).
    rewrite Ht, Hs, Hl.
    unfold total_attempts, success_latencies, successful_attempts in *.
    rewrite He. rewrite filter_app, map_app, !length_app, Hle.
    cbn [filter flat_map length]. rewrite Hse.
    destruct (did_connect (try_result a)); cbn [length];
      rewrite <- ?app_assoc; (split; [lia|]); (split; [lia|]);
      (split; [reflexivity|]).
    + rewrite Hn, He. split; [intros [H _]|intros [_ H]];
        [destruct (connection_history self); discriminate H | discriminate H].
    + rewrite Hn, He. split; [intros [H _]|intros [_ H]];
        [destruct (connection_history self); discriminate H | discriminate H].
Qed.

Example stats_two_of_three :
  let f1 := fun q : Q =>
    if Qeq_bool q ((2 # 3) * 100) then "66.7"%string else "?"%string in
  let f3 := fun q : Q =>
    if Qeq_bool q (3 # 100) then "0.030"%string else "?"%string in
  get_connection_stats f1 f3
    (probes f3 fresh_manager
       [mkTry 10 "0.tcp.ngrok.io" 12345 8 (connected (2 # 100));
        mkTry 11 "0.tcp.ngrok.io" 12345 8 raised_timeout;
        mkTry 12 "0.tcp.ngrok.io" 12345 8 (connected (4 # 100))])
  = "Success rate: 66.7% (2/3), Avg latency: 0.030s"%string.
Proof. vm_compute. reflexivity. Qed.

(* ------------------------------------------------------------------ *)
(** ** The network tests of comprehensive_connection_test *)

(** X9.  The three network tests log three attempts, and their success
    rate clears the 0.7 threshold only when all three connected: with
    three trials, one failure (rate 2/3) is already "unreliable". *)
Theorem network_tests_all_or_nothing format_3f self host_ port_ e1 e2 e3 :
  let r := network_tests format_3f self host_ port_ [e1; e2; e3] in
  length (fst r) = 3 /\
  total_attempts (snd r) = total_attempts self + 3 /\
  (network_unreliable (fst r) = false
   <-> did_connect (snd e1) = true /\ did_connect (snd e2) = true
       /\ did_connect (snd e3) = true).
Proof.
  destruct e1 as [n1 o1], e2 as [n2 o2], e3 as [n3 o3].
  cbv zeta. unfold network_tests, total_attempts.
  cbn [firstn fold_left fst snd app].
  destruct o1, o2, o3;
    cbn [test_network_connection fst snd history_append connection_history
           app length did_connect];
    (split; [reflexivity|]);
    (split; [rewrite !length_app; simpl; lia|]);
    (split; [intros H|intros (H1 & H2 & H3)]);
    first [ discriminate | reflexivity | (repeat split; reflexivity)
          | (vm_compute in H; discriminate H) ].
Qed.

Example one_failure_is_unreliable :
  network_unreliable [true; false; true] = true /\
  network_unreliable [true; true; true] = false.
Proof. split; reflexivity. Qed.

(* ------------------------------------------------------------------ *)
(** ** The tunnel check *)

Lemma read_tunnels_inl tunnels acc info :
  read_tunnels tunnels acc = inl info ->
  exists new,
    info = acc ++ new /\
    map json_public_url tunnels = map (fun i => Some (public_url i)) new /\
    map json_config tunnels = map (fun i => Some (Some (local_addr i))) new /\
    map json_proto tunnels = map (fun i => Some (proto i)) new.
Proof.
  revert acc; induction tunnels as [|[u c p] rest IH]; intros acc H.
  - injection H as <-. exists []. rewrite app_nil_r. repeat split.
  - cbn [read_tunnels json_public_url json_config json_proto] in H.
    destruct u as [u|]; [|discriminate].
    destruct c as [[a|]|]; try discriminate.
    destruct p as [p|]; [|discriminate].
    destruct (IH _ H) as (new & -> & Hu & Hc & Hp).
    exists (mkTunnelInfo u a p :: new). rewrite <- app_assoc.
    cbn [map json_public_url json_config json_proto
           public_url local_addr proto app].
    rewrite Hu, Hc, Hp. repeat split.
Qed.

Lemma read_tunnels_missing tunnels acc tunnel :
  In tunnel tunnels -> missing_key tunnel ->
  exists e, read_tunnels tunnels acc = inr e.
Proof.
  revert acc; induction tunnels as [|[u c p] rest IH]; intros acc Hin Hm;
    [contradiction|].
  cbn [read_tunnels json_public_url json_config json_proto].
  destruct u as [u|]; [|eauto].
  destruct c as [[a|]|]; [|eauto|eauto].
  destruct p as [p|]; [|eauto].
  destruct Hin as [<-|Hin]; [|now apply IH].
  destruct Hm as [H|[H|[H|H]]]; discriminate H.
Qed.

(** X10.  The tunnel check reports success exactly when it leaves the
    manager's ngrok status at "active".  A tunnel list whose reading
    fails, because some tunnel lacks one of the keys read, is reported as
    a failure with the message "Error checking ngrok: ..." and leaves
    the status at "error", not "active".  On success the answer was a 200
    with a non-empty tunnel list, and the returned list has one entry per
    tunnel, in order, with the tunnel's public URL, local address and
    protocol.  The connection history is never touched. *)
Theorem ngrok_active_iff_ok self outcome :
  let r := check_ngrok_status self outcome in
  (fst (fst r) = true <-> ngrok_status (snd r) = Some "active"%string) /\
  connection_history (snd r) = connection_history self /\
  (fst (fst r) = true ->
   exists tunnels info,
     outcome = responded 200 (json_tunnels tunnels) /\
     tunnels <> [] /\
     snd (fst r) = inl info /\
     map json_public_url tunnels = map (fun i => Some (public_url i)) info /\
     map json_config tunnels = map (fun i => Some (Some (local_addr i))) info /\
     map json_proto tunnels = map (fun i => Some (proto i)) info) /\
  (forall tunnels e,
     outcome = responded 200 (json_tunnels tunnels) ->
     read_tunnels tunnels [] = inr e ->
     fst (fst r) = false /\
     snd (fst r) = inr ("Error checking ngrok: " ++ e)%string /\
     ngrok_status (snd r) = Some "error"%string) /\
  (forall tunnels tunnel,
     outcome = responded 200 (json_tunnels tunnels) ->
     In tunnel tunnels -> missing_key tunnel ->
     fst (fst r) = false /\ ngrok_status (snd r) = Some "error"%string).
Proof.
  cbv zeta.
  assert (Hfail : forall tunnels e,
            outcome = responded 200 (json_tunnels tunnels) ->
            read_tunnels tunnels [] = inr e ->
            fst (fst (check_ngrok_status self outcome)) = false /\
            snd (fst (check_ngrok_status self outcome))
            = inr ("Error checking ngrok: " ++ e)%string /\
            ngrok_status (snd (check_ngrok_status self outcome))
            = Some "error"%string).
  { intros tunnels e -> Er. unfold check_ngrok_status.
    change (200 =? 200)%Z with true. cbv iota.
    destruct tunnels as [|tj rest]; [discriminate Er|].
    rewrite Er. repeat split. }
  split; [|split; [|split; [|split]]].
  - unfold check_ngrok_status.
    destruct outcome as [code [e|[|tj rest]]| |e];
      try destruct (Z.eqb_spec code 200) as [->|Hc];
      try (cbn [fst snd set_ngrok_status ngrok_status]; split; discriminate).
    destruct (read_tunnels (tj :: rest) []) as [info|e];
      cbn [fst snd set_ngrok_status ngrok_status];
      split; first [reflexivity | discriminate].
  - unfold check_ngrok_status.
    destruct outcome as [code [e|[|tj rest]]| |e];
      try destruct (Z.eqb_spec code 200) as [->|Hc];
      try reflexivity.
    destruct (read_tunnels (tj :: rest) []); reflexivity.
  - unfold check_ngrok_status.
    destruct outcome as [code [e|[|tj rest]]| |e];
      try destruct (Z.eqb_spec code 200) as [->|Hc];
      try (cbn [fst snd]; discriminate).
    destruct (read_tunnels (tj :: rest) []) as [info|e] eqn:Er;
      cbn [fst snd]; [|discriminate]. intros _.
    destruct (read_tunnels_inl _ _ _ Er) as (new & -> & Hu & Hcf & Hp).
    exists (tj :: rest), new. cbn [app].
    split; [reflexivity|]. split; [discriminate|]. now repeat split.
  - exact Hfail.
  - intros tunnels tunnel Ho Hin Hm.
    destruct (read_tunnels_missing tunnels [] tunnel Hin Hm) as (e & Er).
    destruct (Hfail tunnels e Ho Er) as (H1 & _ & H3). now split.
Qed.

Example tunnel_without_proto :
  check_ngrok_status fresh_manager
    (responded 200
       (json_tunnels
          [mkTunnelJson (Some "tcp://0.tcp.ngrok.io:12345")
             (Some (Some "localhost:7497")) (Some "tcp");
           mkTunnelJson (Some "https://ab12.ngrok.io")
             (Some (Some "localhost:80")) None]%string))
  = ((false, inr "Error checking ngrok: 'proto'"%string),
     mkManager (Some "error"%string) None None []).
Proof. reflexivity. Qed.

(* ------------------------------------------------------------------ *)
(** ** Every outcome of the enhanced calculator *)

Lemma enhanced_not_zero_division data p20 p50 p200 :
  calculate_triple_sma_enhanced data p20 p50 p200 <> Err ZeroDivisionError.
Proof.
  unfold calculate_triple_sma_enhanced.
  set (t0 := add_columns _ _ _ _ _).
  destruct (length data <? p200); [discriminate|]. cbv [raise_if bind].
  destruct (first (remove_invalid data)) eqn:F1;
    [|apply first_err in F1; subst; discriminate].
  destruct (nrows t0 =? 0) eqn:E0.
  - exfalso. apply Nat.eqb_eq in E0. unfold nrows, t0 in E0.
    cbn [bars add_columns] in E0. rewrite sort_index_length in E0.
    destruct (remove_invalid data); [discriminate F1 | discriminate E0].
  - destruct (first (dropna_sma t0)) eqn:F2;
      [|apply first_err in F2; subst]; discriminate.
Qed.


Example short_valid_history :
  calculate_triple_sma_enhanced one_bad_of_200 20 50 199
  = Ok (add_columns enhanced_min_periods 20 50 199
          (sort_index (remove_invalid one_bad_of_200)))
  /\ calculate_triple_sma_enhanced one_bad_of_200 0 50 199 = Err IndexError.
Proof. split; vm_compute; reflexivity. Qed.

(* ------------------------------------------------------------------ *)
(** ** The order of the input *)

Lemma filter_perm {A} (f : A -> bool) l l' :
  Permutation l l' -> Permutation (filter f l) (filter f l').
Proof.
  induction 1 as [|x l l' _ IH|x y l|l l' l'' _ IH1 _ IH2]; simpl.
  - constructor.
  - destruct (f x); [now constructor | assumption].
  - destruct (f x), (f y); try reflexivity. apply perm_swap.
  - now transitivity (filter f l').
Qed.

Lemma remove_invalid_perm data data' :
  Permutation data data' ->
  Permutation (remove_invalid data) (remove_invalid data').
Proof. intros H. unfold remove_invalid. now do 3 apply filter_perm. Qed.

Lemma NoDup_map_filter {A B} (g : A -> B) (f : A -> bool) l :
  NoDup (map g l) -> NoDup (map g (filter f l)).
Proof.
  induction l as [|x l IH]; simpl; intros H; [constructor|].
  inversion H as [|? ? Hx Hl]; subst.
  destruct (f x); [|now apply IH].
  simpl. constructor; [|now apply IH].
  intros Hin. apply Hx. apply in_map_iff in Hin.
  destruct Hin as (y & Hy & Hyin). apply filter_In in Hyin.
  rewrite <- Hy. apply in_map. tauto.
Qed.

Lemma NoDup_map_inj {A B} (g : A -> B) l x y :
  NoDup (map g l) -> In x l -> In y l -> g x = g y -> x = y.
Proof.
  induction l as [|a l IH]; simpl; intros Hnd Hx Hy E; [contradiction|].
  inversion Hnd as [|? ? Ha Hl]; subst.
  destruct Hx as [->|Hx], Hy as [->|Hy]; auto.
  - exfalso. apply Ha. rewrite E. now apply in_map.
  - exfalso. apply Ha. rewrite <- E. now apply in_map.
Qed.

(** Two date-sorted arrangements of the same bars, no date twice, are the
    same list. *)
Lemma sorted_perm_unique l l' :
  StronglySorted date_le l -> StronglySorted date_le l' ->
  Permutation l l' -> NoDup (map date l) -> l = l'.
Proof.
  intros Hs. revert l'.
  induction Hs as [|a r Hr IH Ha]; intros l' Hs' Hp Hnd.
  - apply Permutation_nil in Hp. now subst.
  - destruct Hs' as [|b r' Hr' Hb].
    + apply Permutation_sym, Permutation_nil in Hp. discriminate.
    + assert (E : a = b).
      { assert (Hbin : In b (a :: r))
          by (apply (Permutation_in _ (Permutation_sym Hp)); now left).
        assert (Hain : In a (b :: r'))
          by (apply (Permutation_in _ Hp); now left).
        destruct Hain as [->|Hain]; [reflexivity|].
        destruct Hbin as [->|Hbin]; [reflexivity|].
        rewrite Forall_forall in Ha, Hb.
        pose proof (Ha _ Hbin) as L1. pose proof (Hb _ Hain) as L2.
        unfold date_le in L1, L2.
        apply (NoDup_map_inj date (a :: r)); auto; [now left | now right | lia]. }
      subst b. f_equal. apply IH; try assumption.
      * now apply Permutation_cons_inv in Hp.
      * simpl in Hnd. now inversion Hnd.
Qed.

Lemma date_le_trans : Relations_1.Transitive date_le.
Proof. intros a b c. unfold date_le. lia. Qed.

Lemma sort_index_perm_eq df df' :
  Permutation df df' -> NoDup (map date df) ->
  sort_index df = sort_index df'.
Proof.
  intros Hp Hnd. apply sorted_perm_unique.
  - apply Sorted_StronglySorted; [apply date_le_trans | apply sort_index_sorted].
  - apply Sorted_StronglySorted; [apply date_le_trans | apply sort_index_sorted].
  - rewrite !sort_index_perm. exact Hp.
  - apply (Permutation_NoDup (l := map date df)); [|assumption].
    apply Permutation_map, Permutation_sym, sort_index_perm.
Qed.

(** X12.  When no two bars carry the same date, the enhanced calculator
    does not depend on the order in which the bars are given: the same
    bars in any other order give the same table, or the same error. *)
Theorem enhanced_order_independent data data' p20 p50 p200 :
  Permutation data data' ->
  NoDup (map date data) ->
  calculate_triple_sma_enhanced data p20 p50 p200
  = calculate_triple_sma_enhanced data' p20 p50 p200.
Proof.
  intros Hp Hnd.
  pose proof (remove_invalid_perm _ _ Hp) as Hrp.
  assert (Hs : sort_index (remove_invalid data)
               = sort_index (remove_invalid data')).
  { apply sort_index_perm_eq; [assumption|].
    unfold remove_invalid. now do 3 apply NoDup_map_filter. }
  unfold calculate_triple_sma_enhanced.
  rewrite <- (Permutation_length Hp), <- Hs.
  destruct (length data <? p200); [reflexivity|]. cbv [raise_if bind].
  destruct (remove_invalid data) as [|b df] eqn:E.
  - apply Permutation_nil in Hrp. now rewrite Hrp.
  - destruct (remove_invalid data') as [|b' df'] eqn:E'.
    + apply Permutation_sym, Permutation_nil in Hrp. discriminate.
    + reflexivity.
Qed.

Lemma enhanced_order_independent_witness :
  calculate_triple_sma_enhanced unsorted5 2 3 4
  = calculate_triple_sma_enhanced rising5 2 3 4.
Proof.
  apply (enhanced_order_independent unsorted5 rising5 2 3 4).
  - apply Permutation_sym. apply (sort_index_perm unsorted5).
  - repeat constructor; simpl; intuition discriminate.
Defined.

(* ------------------------------------------------------------------ *)
(** ** Means *)

Lemma Qlength_cons {A} (x : A) l : (Qlength (x :: l) == 1 + Qlength l)%Q.
Proof.
  unfold Qlength. cbn [length]. rewrite Nat2Z.inj_succ. unfold Z.succ.
  rewrite inject_Z_plus. ring.
Qed.

Lemma Qlength_pos {A} (l : list A) : l <> [] -> (0 < Qlength l)%Q.
Proof.
  intros H. destruct l; [congruence|].
  unfold Qlength, Qlt, inject_Z. simpl. lia.
Qed.

Lemma Qsum_all_eq l c :
  (forall x, In x l -> (x == c)%Q) -> (Qsum l == Qlength l * c)%Q.
Proof.
  induction l as [|x l IH]; intros H.
  - unfold Qlength. simpl. ring.
  - cbn [Qsum fold_right]. fold (Qsum l).
    rewrite Qlength_cons, (H x) by now left.
    rewrite IH by (intros y Hy; apply H; now right). ring.
Qed.

Lemma mean_all_eq l c :
  l <> [] -> (forall x, In x l -> (x == c)%Q) -> (mean l == c)%Q.
Proof.
  intros Hne H. unfold mean. fold (Qlength l). rewrite (Qsum_all_eq l c H).
  field. intros E. pose proof (Qlength_pos l Hne) as Hp.
  rewrite E in Hp. now apply Qlt_irrefl in Hp.
Qed.

Lemma In_firstn {A} n (l : list A) x : In x (firstn n l) -> In x l.
Proof.
  intros H. rewrite <- (firstn_skipn n l). apply in_or_app. now left.
Qed.

Lemma In_skipn {A} n (l : list A) x : In x (skipn n l) -> In x l.
Proof.
  intros H. rewrite <- (firstn_skipn n l). apply in_or_app. now right.
Qed.

Lemma In_window_at w xs i x : In x (window_at w xs i) -> In x xs.
Proof. unfold window_at. intros H. eapply In_firstn, In_skipn, H. Qed.

Lemma returns_bars_incl data p20 p50 p200 t b :
  computeSignals_returns data p20 p50 p200 t -> In b (bars t) -> In b data.
Proof.
  intros [H|H] Hb.
  - destruct (enhanced_returns _ _ _ _ _ H) as (_ & -> & _).
    cbn [bars add_columns] in Hb.
    apply (Permutation_in _ (sort_index_perm _)) in Hb.
    now apply remove_invalid_In in Hb.
  - unfold calculate_triple_sma_optimized in H.
    destruct data as [|b0 df]; [discriminate|]. cbn [first bind] in H.
    injection H as <-. exact Hb.
Qed.

(* ------------------------------------------------------------------ *)
(** ** A flat market *)

(** X13.  When every bar of the input closes at the same price, every row
    of the table either calculator returns has signal 0: a moving average
    of equal closes is that close, so neither strict alignment can hold. *)
Theorem flat_market_no_signal data p20 p50 p200 t c :
  computeSignals_returns data p20 p50 p200 t ->
  (forall b, In b data -> (close b == c)%Q) ->
  forall i, i < nrows t -> signal_at t i = 0%Z.
Proof.
  intros Hret Hflat i Hi.
  assert (Hcl : forall x, In x (map close (bars t)) -> (x == c)%Q).
  { intros x Hx. apply in_map_iff in Hx. destruct Hx as (b & <- & Hb).
    apply Hflat. eapply returns_bars_incl; eassumption. }
  destruct (returns_add_columns _ _ _ _ _ Hret) as (mp & df & Hmp & _ & ->).
  cbn [bars add_columns] in Hcl. unfold nrows in Hi.
  cbn [bars add_columns] in Hi.
  destruct (add_columns_signal_spec mp p20 p50 p200 df i Hi)
    as (_ & _ & _ & H0).
  destruct (add_columns_full_window mp p20 p50 p200 df i Hmp Hi)
    as ((_ & _ & H20) & _).
  assert (Hc : (close_at (add_columns mp p20 p50 p200 df) i == c)%Q).
  { apply Hcl. unfold close_at. cbn [bars add_columns].
    apply nth_In. now rewrite length_map. }
  assert (Hs : forall s20,
            sma20_at (add_columns mp p20 p50 p200 df) i = Fin s20 ->
            (s20 == c)%Q).
  { intros s20 E. destruct H20 as (Hlen & Hv); [rewrite E; discriminate|].
    rewrite E in Hv. injection Hv as ->.
    apply mean_all_eq.
    - intros E0. rewrite E0 in Hlen. simpl in Hlen.
      destruct (add_columns_full_window mp p20 p50 p200 df i Hmp Hi)
        as ((_ & Hd & _) & _).
      assert (0 < p20 <= S i) by (apply Hd; rewrite E; discriminate). lia.
    - intros x Hx. apply Hcl. eapply In_window_at, Hx. }
  apply H0. split.
  - intros (x & y & z & E & _ & _ & L & _).
    rewrite (Hs x E), Hc in L. now apply Qlt_irrefl in L.
  - intros (x & y & z & E & _ & _ & L & _).
    rewrite (Hs x E), Hc in L. now apply Qlt_irrefl in L.
Qed.

Lemma flat_market_no_signal_witness :
  signal_at (add_columns enhanced_min_periods 20 50 200 (flat_series 250)) 249
  = 0%Z.
Proof.
  apply (flat_market_no_signal (flat_series 250) 20 50 200 _ 1).
  - left. vm_compute. reflexivity.
  - intros b Hb. unfold flat_series in Hb. apply in_map_iff in Hb.
    destruct Hb as (k & <- & _). reflexivity.
  - vm_compute. lia.
Defined.

(* ------------------------------------------------------------------ *)
(** ** What the cache holds *)

Section LruCacheContents.
Variables K V : Type.
Variable K_eq_dec : forall a b : K, {a = b} + {a <> b}.
Variable user_function : K -> result V.
Variable maxsize : nat.

Lemma cache_get_None k (c : cache K V) :
  cache_get K_eq_dec k c = None <-> ~ In k (map fst c).
Proof.
  induction c as [|[k0 v0] r IH]; simpl; [tauto|].
  destruct (K_eq_dec k k0) as [->|Hk].
  - split; [discriminate | intros H; exfalso; apply H; now left].
  - rewrite IH. split; [intros H [E|Hin]; [congruence | tauto] | tauto].
Qed.

Lemma cache_del_keys k k' (c : cache K V) :
  In k' (map fst (cache_del K_eq_dec k c)) <-> In k' (map fst c) /\ k' <> k.
Proof.
  induction c as [|[k0 v0] r IH]; simpl; [tauto|].
  destruct (K_eq_dec k k0) as [->|Hk]; simpl; rewrite IH.
  - split; [tauto|]. intros [[E|Hin] Hne]; [congruence | tauto].
  - split; [intros [E|[Hin Hne]]; [subst; split; [now left | congruence] | tauto]
           | tauto].
Qed.

Lemma cache_del_NoDup k (c : cache K V) :
  NoDup (map fst c) -> NoDup (map fst (cache_del K_eq_dec k c)).
Proof.
  induction c as [|[k0 v0] r IH]; simpl; intros H; [constructor|].
  inversion H as [|? ? Hk0 Hr]; subst.
  destruct (K_eq_dec k k0); [now apply IH|].
  simpl. constructor; [|now apply IH].
  rewrite cache_del_keys. tauto.
Qed.

Lemma cache_del_length k (c : cache K V) v :
  cache_get K_eq_dec k c = Some v ->
  S (length (cache_del K_eq_dec k c)) <= length c.
Proof.
  induction c as [|[k0 v0] r IH]; simpl; [discriminate|].
  destruct (K_eq_dec k k0) as [->|Hk]; intros H.
  - clear IH H. apply le_n_S.
    induction r as [|[k1 v1] r IHr]; simpl; [lia|].
    destruct (K_eq_dec k0 k1); simpl; lia.
  - simpl. apply le_n_S. now apply IH.
Qed.

Lemma firstn_NoDup {A} n (l : list A) : NoDup l -> NoDup (firstn n l).
Proof.
  intros H. rewrite <- (firstn_skipn n l) in H.
  now apply NoDup_app_remove_r in H.
Qed.

Lemma lru_call_bounded c k :
  length c <= maxsize /\ NoDup (map fst c) ->
  let c' := snd (lru_call K_eq_dec user_function maxsize c k) in
  length c' <= maxsize /\ NoDup (map fst c').
Proof.
  intros [Hl Hn]. cbv zeta. unfold lru_call.
  destruct (cache_get K_eq_dec k c) as [v|] eqn:Eg; cbn [snd].
  - split.
    + pose proof (cache_del_length k c v Eg). simpl. lia.
    + simpl. constructor; [|now apply cache_del_NoDup].
      rewrite cache_del_keys. tauto.
  - destruct (user_function k) as [v|e]; cbn [snd]; [|tauto]. split.
    + rewrite length_firstn. lia.
    + rewrite <- firstn_map. apply firstn_NoDup. simpl.
      constructor; [now apply cache_get_None | assumption].
Qed.

Lemma lru_calls_bounded c ks :
  length c <= maxsize /\ NoDup (map fst c) ->
  let c' := lru_calls K_eq_dec user_function maxsize c ks in
  length c' <= maxsize /\ NoDup (map fst c').
Proof.
  revert c; induction ks as [|k ks IH]; intros c H; [exact H|].
  apply IH, lru_call_bounded, H.
Qed.

Lemma lru_call_stores c k v :
  0 < maxsize ->
  cache_sound K_eq_dec user_function c ->
  user_function k = Ok v ->
  cache_get K_eq_dec k (snd (lru_call K_eq_dec user_function maxsize c k))
  = Some v.
Proof.
  intros Hm Hc Hf. unfold lru_call.
  destruct (cache_get K_eq_dec k c) as [v'|] eqn:Eg; cbn [snd].
  - apply Hc in Eg. rewrite Hf in Eg. injection Eg as <-. simpl.
    destruct (K_eq_dec k k); [reflexivity | congruence].
  - rewrite Hf. cbn [snd]. destruct maxsize as [|n]; [lia|]. simpl.
    destruct (K_eq_dec k k); [reflexivity | congruence].
Qed.

Lemma lru_call_raises c k e :
  cache_sound K_eq_dec user_function c ->
  user_function k = Err e ->
  snd (lru_call K_eq_dec user_function maxsize c k) = c.
Proof.
  intros Hc Hf. unfold lru_call.
  destruct (cache_get K_eq_dec k c) as [v'|] eqn:Eg; cbn [snd].
  - apply Hc in Eg. congruence.
  - now rewrite Hf.
Qed.
End LruCacheContents.


(* ------------------------------------------------------------------ *)
(** ** Managed accounts *)

Lemma split_comma_cons s : exists h t, split_comma s = h :: t.
Proof.
  induction s as [|c r (h & t & E)]; simpl; [eauto|].
  destruct (Ascii.eqb c ","); [eauto|]. rewrite E. eauto.
Qed.

Lemma split_comma_join s : String.concat "," (split_comma s) = s.
Proof.
  induction s as [|c r IH]; [reflexivity|].
  cbn [split_comma]. destruct (split_comma_cons r) as (h & t & E).
  rewrite E in *. destruct (Ascii.eqb_spec c ","%char) as [->|_].
  - change (String.concat "," (EmptyString :: h :: t))
      with (String "," (String.concat "," (h :: t))).
    now rewrite IH.
  - destruct t as [|h' t].
    + change (String c h = String c r). now rewrite <- IH.
    + change (String c (String.concat "," (h :: h' :: t)) = String c r).
      now rewrite IH.
Qed.

Lemma split_comma_length s : length (split_comma s) = S (count_commas s).
Proof.
  induction s as [|c r IH]; [reflexivity|].
  cbn [split_comma count_commas].
  destruct (split_comma_cons r) as (h & t & E). rewrite E in *.
  destruct (Ascii.eqb c ","); simpl in *; lia.
Qed.

(** X17.  [managedAccounts] stores no account for an empty string, and
    otherwise one account more than the string has commas (which is what
    the connection summary then counts); joining the stored accounts with
    commas gives the string back. *)
Theorem managed_accounts_split self accountsList :
  let self' := EnhancedIBapi.managedAccounts self accountsList in
  String.concat "," (EnhancedIBapi.managed_accounts self') = accountsList /\
  EnhancedIBapi.accounts (EnhancedIBapi.get_connection_summary self')
  = match accountsList with
    | EmptyString => 0
    | _ => S (count_commas accountsList)
    end.
Proof.
  cbv zeta.
  cbn [EnhancedIBapi.managedAccounts EnhancedIBapi.managed_accounts
         EnhancedIBapi.get_connection_summary EnhancedIBapi.accounts].
  destruct accountsList as [|c r]; [split; reflexivity|].
  split; [apply split_comma_join | apply split_comma_length].
Qed.

Example two_accounts :
  EnhancedIBapi.managed_accounts
    (EnhancedIBapi.managedAccounts EnhancedIBapi.init "DU123456,DU654321")
  = ["DU123456"; "DU654321"]%string.
Proof. reflexivity. Qed.
